(** * lua-readline: the completion bridge and the interruptible read

    A shallow embedding of [readline.c], the Lua binding of the line-editing
    library.  The C functions of the file are transcribed one by one into a
    state-and-error monad over an explicit world: the Lua stack, the closures,
    the registry, the process heap, the SIGINT disposition and the globals of
    the line-editing library.  Host Lua functions, foreign signal handlers and
    the blocking read itself are outside the file; they enter as oracles. *)

From Stdlib Require Import ZArith String Ascii List Lia Bool DecimalString.
From stdpp Require Import base option list gmap strings fin_maps.

Local Open Scope Z_scope.

(** ** C strings and Lua strings

    A Lua string is a byte sequence with an explicit length and may hold the
    NUL byte; its buffer is followed by a terminating NUL.  A [char*] sees
    only the bytes before the first NUL. *)

Definition NUL : ascii := Ascii.zero.

Fixpoint c_str (s : string) : string :=
  match s with
  | EmptyString => EmptyString
  | String c r => if Ascii.eqb c NUL then EmptyString else String c (c_str r)
  end.

Definition strlen (s : string) : nat := String.length (c_str s).

Fixpoint no_nul (s : string) : bool :=
  match s with
  | EmptyString => true
  | String c r => negb (Ascii.eqb c NUL) && no_nul r
  end.

Definition byte_at (s : string) : ascii :=
  match s with String c _ => c | EmptyString => NUL end.

Definition rest_of (s : string) : string :=
  match s with String _ r => r | EmptyString => EmptyString end.

(** [strncmp a b n]: both arguments are NUL-terminated buffers; reading the
    end of the Rocq string reads the terminator. *)
Fixpoint strncmp (a b : string) (n : nat) : Z :=
  match n with
  | O => 0
  | S n' =>
      let ca := byte_at a in
      let cb := byte_at b in
      if Ascii.eqb ca cb
      then if Ascii.eqb ca NUL then 0 else strncmp (rest_of a) (rest_of b) n'
      else Z.of_nat (nat_of_ascii ca) - Z.of_nat (nat_of_ascii cb)
  end.

Fixpoint take_bytes (n : nat) (s : string) : string :=
  match n, s with
  | S n', String c r => String c (take_bytes n' r)
  | _, _ => EmptyString
  end.

(** The test the specification words: long enough, and starting with the
    prefix, byte for byte. *)
Definition entry_matches (p e : string) : bool :=
  (String.length p <=? String.length e)%nat && String.prefix p e.

(** ** Lua values *)

Inductive cfunction :=
| CF_returnnil | CF_niliterator | CF_iterstep | CF_ipairsiterator
| CF_ipairs | CF_ipairsaux.

Inductive func :=
| CFun (c : cfunction)      (* a C function without upvalues *)
| CClosure (r : nat)        (* a C closure, by reference *)
| HostFun (h : nat).        (* a function of the host program *)

Inductive value :=
| VNil
| VBool (b : bool)
| VLight (p : nat)
| VNum (n : Z)
| VStr (s : string)
| VTable (t : nat)
| VFun (f : func)
| VUserdata (u : nat)
| VThread (t : nat).

Definition LUA_TNONE : Z := -1.
Definition LUA_TNIL : Z := 0.
Definition LUA_TBOOLEAN : Z := 1.
Definition LUA_TLIGHTUSERDATA : Z := 2.
Definition LUA_TNUMBER : Z := 3.
Definition LUA_TSTRING : Z := 4.
Definition LUA_TTABLE : Z := 5.
Definition LUA_TFUNCTION : Z := 6.
Definition LUA_TUSERDATA : Z := 7.
Definition LUA_TTHREAD : Z := 8.

Definition ttype (v : value) : Z :=
  match v with
  | VNil => LUA_TNIL
  | VBool _ => LUA_TBOOLEAN
  | VLight _ => LUA_TLIGHTUSERDATA
  | VNum _ => LUA_TNUMBER
  | VStr _ => LUA_TSTRING
  | VTable _ => LUA_TTABLE
  | VFun _ => LUA_TFUNCTION
  | VUserdata _ => LUA_TUSERDATA
  | VThread _ => LUA_TTHREAD
  end.

(** Pseudo-indices of lua.h (Lua 5.1). *)
Definition LUA_REGISTRYINDEX : Z := -10000.
Definition LUA_ENVIRONINDEX : Z := -10001.
Definition LUA_GLOBALSINDEX : Z := -10002.
Definition lua_upvalueindex (i : Z) : Z := LUA_GLOBALSINDEX - i.

Inductive slot :=
| SStack (i : nat)        (* position counted from the bottom, from 0 *)
| SUp (i : nat)           (* upvalue of the running closure, from 0 *)
| SRegistry
| SInvalid.

Definition index2adr (top : nat) (idx : Z) : slot :=
  if 0 <? idx then SStack (Z.to_nat (idx - 1))
  else if LUA_REGISTRYINDEX <? idx then
    if (idx <? 0) && (0 <=? Z.of_nat top + idx)
    then SStack (Z.to_nat (Z.of_nat top + idx)) else SInvalid
  else if idx =? LUA_REGISTRYINDEX then SRegistry
  else if idx <? LUA_GLOBALSINDEX
       then SUp (Z.to_nat (LUA_GLOBALSINDEX - idx - 1))
       else SInvalid.

Record closure := mkClosure { cl_fn : cfunction; cl_up : list value }.

(** ** The process around the Lua state *)

Inductive sighandler :=
| readline_sigint_h           (* the handler of this file *)
| foreign_handler (h : nat).  (* a handler installed by the host program *)

Inductive sig_t := SIG_DFL | SIG_IGN | SIG_ERR | SIG_FN (h : sighandler).

Definition SIGINT : Z := 2.

Inductive ptr :=
| NULL
| Heap (a : nat)          (* a block obtained from malloc *)
| Static (s : string).    (* storage that malloc did not hand out *)

Inductive entry_function := gen_function_p.

Inductive event :=
| EvHostCall (h : nat) (args : list value)
| EvFreeLineState
| EvCleanupAfterSignal
| EvSignal (sig : Z) (disp : sig_t)
| EvHandler (h : nat) (sig : Z).

Inductive undefined :=
| NullRead | NullWrite | BadFree | BadPointer | ApiMisuse | NotModelled.

Inductive hresult := HRet (vs : list value) | HErr (e : value).

(** What the blocking read does while it is in flight: zero or more
    completion requests, each for a word prefix, and then one ending. *)
Inductive rl_end := RlLine (s : string) | RlNull | RlSigint.

Record rl_script := mkScript { rl_completions : list string; rl_ending : rl_end }.

Inductive read_result := Returned (line : ptr) | Jumped (sig : Z).

Definition unsnoc {A} (l : list A) : option (list A * A) :=
  match rev l with
  | [] => None
  | x :: r => Some (rev r, x)
  end.

Definition lastn {A} (n : nat) (l : list A) : list A :=
  drop (length l - n)%nat l.

Definition adjust (n : nat) (vs : list value) : list value :=
  take n vs ++ replicate (n - length vs)%nat VNil.

Definition rawgeti (t : gmap Z value) (i : Z) : value := default VNil (t !! i).

(** Storing nil in a table removes the key. *)
Definition rawset (k : nat) (v : value) (r : gmap nat value) : gmap nat value :=
  match v with
  | VNil => delete k r
  | _ => <[k := v]> r
  end.


Definition siglongjmp_value (val : Z) : Z := if val =? 0 then 1 else val.

(** The host program: its own state, the behaviour of its Lua functions
    (numbered), the behaviour of the signal handlers it installed (numbered;
    a handler sees and may change the SIGINT disposition), and the
    number-to-string conversion of the Lua runtime. *)
Class Host := mkHost {
  hstate : Type;
  host_call : nat -> list value -> hstate -> hresult * hstate;
  handler_run : nat -> Z -> hstate * sig_t -> hstate * sig_t;
  number_tostring : Z -> string
}.

Section Binding.

Context {H : Host}.

Record World := mkWorld {
  stack : list value;                 (* frame of the running C function *)
  self : option nat;                  (* the running closure, for upvalues *)
  closures : gmap nat closure;
  next_closure : nat;
  tables : gmap nat (gmap Z value);
  registry : gmap nat value;          (* keyed by light userdata *)
  globals : gmap string value;
  host : hstate;
  heap : gmap nat string;             (* malloc'ed blocks and their text *)
  nalloc : nat;
  malloc_ok : nat -> bool;            (* does the k-th malloc succeed? *)
  rl_readline_name : ptr;
  rl_completion_entry_function : option entry_function;
  globalL : bool;                     (* globalL points at this Lua state *)
  sigint : sig_t;                     (* disposition of SIGINT *)
  rl_instream : option nat;
  feof : nat -> bool;
  trace : list event
}.

Definition set_stack (s : list value) (w : World) : World :=
  mkWorld s (self w) (closures w) (next_closure w) (tables w) (registry w)
    (globals w) (host w) (heap w) (nalloc w) (malloc_ok w) (rl_readline_name w)
    (rl_completion_entry_function w) (globalL w) (sigint w) (rl_instream w)
    (feof w) (trace w).

Definition set_self (s : option nat) (w : World) : World :=
  mkWorld (stack w) s (closures w) (next_closure w) (tables w) (registry w)
    (globals w) (host w) (heap w) (nalloc w) (malloc_ok w) (rl_readline_name w)
    (rl_completion_entry_function w) (globalL w) (sigint w) (rl_instream w)
    (feof w) (trace w).

Definition set_closures (c : gmap nat closure) (n : nat) (w : World) : World :=
  mkWorld (stack w) (self w) c n (tables w) (registry w)
    (globals w) (host w) (heap w) (nalloc w) (malloc_ok w) (rl_readline_name w)
    (rl_completion_entry_function w) (globalL w) (sigint w) (rl_instream w)
    (feof w) (trace w).

Definition set_registry (r : gmap nat value) (w : World) : World :=
  mkWorld (stack w) (self w) (closures w) (next_closure w) (tables w) r
    (globals w) (host w) (heap w) (nalloc w) (malloc_ok w) (rl_readline_name w)
    (rl_completion_entry_function w) (globalL w) (sigint w) (rl_instream w)
    (feof w) (trace w).

Definition set_host (h : hstate) (w : World) : World :=
  mkWorld (stack w) (self w) (closures w) (next_closure w) (tables w) (registry w)
    (globals w) h (heap w) (nalloc w) (malloc_ok w) (rl_readline_name w)
    (rl_completion_entry_function w) (globalL w) (sigint w) (rl_instream w)
    (feof w) (trace w).

Definition set_heap (h : gmap nat string) (n : nat) (w : World) : World :=
  mkWorld (stack w) (self w) (closures w) (next_closure w) (tables w) (registry w)
    (globals w) (host w) h n (malloc_ok w) (rl_readline_name w)
    (rl_completion_entry_function w) (globalL w) (sigint w) (rl_instream w)
    (feof w) (trace w).

Definition set_rl_readline_name (p : ptr) (w : World) : World :=
  mkWorld (stack w) (self w) (closures w) (next_closure w) (tables w) (registry w)
    (globals w) (host w) (heap w) (nalloc w) (malloc_ok w) p
    (rl_completion_entry_function w) (globalL w) (sigint w) (rl_instream w)
    (feof w) (trace w).

Definition set_rl_completion_entry_function (f : option entry_function)
    (w : World) : World :=
  mkWorld (stack w) (self w) (closures w) (next_closure w) (tables w) (registry w)
    (globals w) (host w) (heap w) (nalloc w) (malloc_ok w) (rl_readline_name w)
    f (globalL w) (sigint w) (rl_instream w) (feof w) (trace w).

Definition set_globalL (b : bool) (w : World) : World :=
  mkWorld (stack w) (self w) (closures w) (next_closure w) (tables w) (registry w)
    (globals w) (host w) (heap w) (nalloc w) (malloc_ok w) (rl_readline_name w)
    (rl_completion_entry_function w) b (sigint w) (rl_instream w)
    (feof w) (trace w).

Definition set_sigint (d : sig_t) (w : World) : World :=
  mkWorld (stack w) (self w) (closures w) (next_closure w) (tables w) (registry w)
    (globals w) (host w) (heap w) (nalloc w) (malloc_ok w) (rl_readline_name w)
    (rl_completion_entry_function w) (globalL w) d (rl_instream w)
    (feof w) (trace w).

Definition set_trace (t : list event) (w : World) : World :=
  mkWorld (stack w) (self w) (closures w) (next_closure w) (tables w) (registry w)
    (globals w) (host w) (heap w) (nalloc w) (malloc_ok w) (rl_readline_name w)
    (rl_completion_entry_function w) (globalL w) (sigint w) (rl_instream w)
    (feof w) t.

(** ** The monad: state, Lua errors, undefined behaviour, fuel *)

Inductive outcome (A : Type) :=
| Ok (a : A) (w : World)
| LuaError (e : value) (w : World)   (* a Lua error unwinds to the host *)
| Undefined (u : undefined)          (* the C code has no defined behaviour *)
| OutOfFuel.

Arguments Ok {A} a w.
Arguments LuaError {A} e w.
Arguments Undefined {A} u.
Arguments OutOfFuel {A}.

Definition M (A : Type) : Type := World -> outcome A.

Definition ret {A} (a : A) : M A := fun w => Ok a w.

Definition bind {A B} (m : M A) (f : A -> M B) : M B :=
  fun w =>
    match m w with
    | Ok a w' => f a w'
    | LuaError e w' => LuaError e w'
    | Undefined u => Undefined u
    | OutOfFuel => OutOfFuel
    end.

Local Notation "x <- c1 ;; c2" := (bind c1 (fun x => c2))
  (at level 100, c1 at next level, right associativity).
Local Notation "c1 ;; c2" := (bind c1 (fun _ => c2))
  (at level 100, c2 at level 200, right associativity).

Definition get {A} (f : World -> A) : M A := fun w => Ok (f w) w.
Definition modify (f : World -> World) : M unit := fun w => Ok tt (f w).
Definition undefined_behaviour {A} (u : undefined) : M A := fun _ => Undefined u.
Definition lua_error {A} (e : value) : M A := fun w => LuaError e w.
Definition out_of_fuel {A} : M A := fun _ => OutOfFuel.
Definition log (e : event) : M unit :=
  modify (fun w => set_trace (trace w ++ [e]) w).

(** ** The Lua C API, as far as the file uses it *)

Definition upvalues (w : World) : list value :=
  match self w with
  | Some r => match closures w !! r with Some cl => cl_up cl | None => [] end
  | None => []
  end.

Definition read_index (idx : Z) (w : World) : option value :=
  match index2adr (length (stack w)) idx with
  | SStack i => stack w !! i
  | SUp i => upvalues w !! i
  | _ => None
  end.

Definition write_index (idx : Z) (v : value) (w : World) : World :=
  match index2adr (length (stack w)) idx with
  | SStack i => set_stack (<[i := v]> (stack w)) w
  | SUp i =>
      match self w with
      | Some r =>
          match closures w !! r with
          | Some cl =>
              set_closures
                (<[r := mkClosure (cl_fn cl) (<[i := v]> (cl_up cl))]> (closures w))
                (next_closure w) w
          | None => w
          end
      | None => w
      end
  | _ => w
  end.

Definition push (v : value) : M unit :=
  modify (fun w => set_stack (stack w ++ [v]) w).

Definition lua_checkstack (n : nat) : M bool := ret true.

Definition lua_type (idx : Z) : M Z :=
  get (fun w => match read_index idx w with Some v => ttype v | None => LUA_TNONE end).

Definition lua_isnil (idx : Z) : M bool :=
  t <- lua_type idx ;; ret (t =? LUA_TNIL).

Definition lua_pushvalue (idx : Z) : M unit :=
  v <- get (read_index idx) ;; push (default VNil v).

Definition lua_pushnil : M unit := push VNil.
Definition lua_pushinteger (n : Z) : M unit := push (VNum n).
Definition lua_pushlightuserdata (p : nat) : M unit := push (VLight p).
Definition lua_pushcfunction (c : cfunction) : M unit := push (VFun (CFun c)).

(** [lua_pushstring] takes a [char*]: [None] is the null pointer, and of a
    buffer only the bytes before the first NUL are read. *)
Definition lua_pushstring (s : option string) : M unit :=
  match s with
  | None => lua_pushnil
  | Some b => push (VStr (c_str b))
  end.

Definition lua_pop (n : nat) : M unit :=
  modify (fun w => set_stack (take (length (stack w) - n)%nat (stack w)) w).

(** [lua_tolstring] converts a number in place; the result is the pointer
    to the bytes ([None] for NULL), whose length the caller reads off. *)
Definition lua_tolstring (idx : Z) : M (option string) :=
  fun w =>
    match read_index idx w with
    | Some (VStr s) => Ok (Some s) w
    | Some (VNum n) =>
        Ok (Some (number_tostring n)) (write_index idx (VStr (number_tostring n)) w)
    | _ => Ok None w
    end.

Definition len_of (s : option string) : nat :=
  match s with Some b => String.length b | None => O end.

Definition lua_pushcclosure (c : cfunction) (n : nat) : M unit :=
  match n with
  | O => lua_pushcfunction c
  | _ =>
      fun w =>
        if (length (stack w) <? n)%nat then Undefined ApiMisuse
        else
          let r := next_closure w in
          let ups := lastn n (stack w) in
          let st := take (length (stack w) - n)%nat (stack w) in
          Ok tt (set_stack (st ++ [VFun (CClosure r)])
                   (set_closures (<[r := mkClosure c ups]> (closures w)) (S r) w))
  end.

Definition lua_insert (idx : Z) : M unit :=
  fun w =>
    match unsnoc (stack w), index2adr (length (stack w)) idx with
    | Some (init, t), SStack i =>
        Ok tt (set_stack (take i init ++ t :: drop i init) w)
    | _, _ => Undefined ApiMisuse
    end.

Definition lua_replace (idx : Z) : M unit :=
  fun w =>
    match unsnoc (stack w) with
    | Some (_, t) =>
        let w' := write_index idx t w in
        Ok tt (set_stack (take (length (stack w') - 1)%nat (stack w')) w')
    | None => Undefined ApiMisuse
    end.

(** Tables are reached through the API only at the registry, with light
    userdata keys. *)
Definition lua_gettable (idx : Z) : M unit :=
  fun w =>
    match index2adr (length (stack w)) idx, unsnoc (stack w) with
    | SRegistry, Some (init, VLight k) =>
        Ok tt (set_stack (init ++ [default VNil (registry w !! k)]) w)
    | SRegistry, None => Undefined ApiMisuse
    | _, _ => Undefined NotModelled
    end.

Definition lua_settable (idx : Z) : M unit :=
  fun w =>
    match index2adr (length (stack w)) idx, unsnoc (stack w) with
    | SRegistry, Some (init, v) =>
        match unsnoc init with
        | Some (init', VLight k) =>
            Ok tt (set_stack init' (set_registry (rawset k v (registry w)) w))
        | Some _ => Undefined NotModelled
        | None => Undefined ApiMisuse
        end
    | SRegistry, None => Undefined ApiMisuse
    | _, _ => Undefined NotModelled
    end.

Definition lua_getglobal (name : string) : M unit :=
  v <- get (fun w => globals w !! name) ;; push (default VNil v).

Definition lua_rawgeti (idx : Z) (n : Z) : M unit :=
  fun w =>
    match read_index idx w with
    | Some (VTable t) =>
        match tables w !! t with
        | Some tb => push (rawgeti tb n) w
        | None => Undefined BadPointer
        end
    | _ => Undefined ApiMisuse
    end.

Definition luaL_error {A} (msg : string) : M A := lua_error (VStr msg).

Definition luaL_checktype (idx : Z) (t : Z) : M unit :=
  ty <- lua_type idx ;;
  if ty =? t then ret tt else luaL_error "bad argument".

Definition luaL_checkint (idx : Z) : M Z :=
  v <- get (read_index idx) ;;
  match v with
  | Some (VNum n) => ret n
  | Some (VStr _) => undefined_behaviour NotModelled
  | _ => luaL_error "bad argument"
  end.

Definition call_t : Type := value -> list value -> M (list value).

(** [lua_call]: the function and its arguments leave the stack, the callee
    runs, and its results, adjusted to [nresults], are pushed. *)
Definition lua_call (call : call_t) (nargs nresults : nat) : M unit :=
  fun w =>
    let st := stack w in
    let base := (length st - (nargs + 1))%nat in
    match drop base st with
    | f :: args =>
        if (length args =? nargs)%nat then
          (vs <- call f args ;;
           modify (fun w' => set_stack (stack w' ++ adjust nresults vs) w'))
            (set_stack (take base st) w)
        else Undefined ApiMisuse
    | [] => Undefined ApiMisuse
    end.

(** A C function runs in a frame of its own: its arguments are the stack,
    the closure gives the upvalues, and the top [n] values are returned. *)
Definition in_frame (slf : option nat) (args : list value) (body : M nat)
    : M (list value) :=
  fun w =>
    match body (set_self slf (set_stack args w)) with
    | Ok n w' => Ok (lastn n (stack w')) (set_self (self w) (set_stack (stack w) w'))
    | LuaError e w' => LuaError e (set_self (self w) (set_stack (stack w) w'))
    | Undefined u => Undefined u
    | OutOfFuel => OutOfFuel
    end.

Definition call_host (h : nat) (args : list value) : M (list value) :=
  fun w =>
    let r := host_call h args (host w) in
    let w' := set_trace (trace w ++ [EvHostCall h args]) (set_host (snd r) w) in
    match fst r with
    | HRet vs => Ok vs w'
    | HErr e => LuaError e w'
    end.

(** ** [ipairs] of the Lua base library (lbaselib.c) *)

Definition ipairsaux : M nat :=
  i <- luaL_checkint 2 ;;
  luaL_checktype 1 LUA_TTABLE ;;
  lua_pushinteger (i + 1) ;;
  lua_rawgeti 1 (i + 1) ;;
  isnil <- lua_isnil (-1) ;;
  ret (if isnil : bool then 0%nat else 2%nat).

Definition luaB_ipairs : M nat :=
  luaL_checktype 1 LUA_TTABLE ;;
  lua_pushcfunction CF_ipairsaux ;;
  lua_pushvalue 1 ;;
  lua_pushinteger 0 ;;
  ret 3%nat.

(** ** The C library: malloc, free and the string copies *)

Definition malloc (size : nat) : M ptr :=
  fun w =>
    let a := nalloc w in
    if malloc_ok w a
    then Ok (Heap a) (set_heap (<[a := EmptyString]> (heap w)) (S a) w)
    else Ok NULL (set_heap (heap w) (S a) w).

Definition free (p : ptr) : M unit :=
  match p with
  | NULL => ret tt
  | Heap a =>
      fun w =>
        match heap w !! a with
        | Some _ => Ok tt (set_heap (delete a (heap w)) (nalloc w) w)
        | None => Undefined BadFree
        end
  | Static _ => undefined_behaviour BadFree
  end.

Definition store (dst : ptr) (text : string) : M unit :=
  match dst with
  | NULL => undefined_behaviour NullWrite
  | Heap a =>
      fun w =>
        match heap w !! a with
        | Some _ => Ok tt (set_heap (<[a := text]> (heap w)) (nalloc w) w)
        | None => Undefined BadPointer
        end
  | Static _ => undefined_behaviour BadPointer
  end.

(** The C string a pointer points at. *)
Definition deref (p : ptr) : M string :=
  match p with
  | NULL => undefined_behaviour NullRead
  | Heap a =>
      fun w =>
        match heap w !! a with
        | Some s => Ok s w
        | None => Undefined BadPointer
        end
  | Static s => ret s
  end.

Definition strlcpy (dst : ptr) (src : string) (size : nat) : M nat :=
  match size with
  | O => ret (strlen src)
  | S k => store dst (take_bytes k (c_str src)) ;; ret (strlen src)
  end.

Definition strncpy (dst : ptr) (src : option string) (n : nat) : M unit :=
  match n with
  | O => ret tt
  | S _ =>
      match src with
      | None =>
          match dst with
          | NULL => undefined_behaviour NullWrite
          | _ => undefined_behaviour NullRead
          end
      | Some b => store dst (c_str (take_bytes n b))
      end
  end.

(** ** readline.c *)

Definition REGISTRY_KEY_GENERATOR : nat := 1.   (* (void* ) lua_readline *)
Definition REGISTRY_KEY_ITERATOR : nat := 2.    (* (void* ) lua_initgenerator *)

(** An iterator that always returns nil. *)
Definition lua_returnnil : M nat := ret 0%nat.

(** A generator that always returns an empty iterator. *)
Definition lua_niliterator : M nat :=
  lua_pushcfunction CF_returnnil ;;
  ret 1%nat.

(** The body of the [for (;;)] of [lua_iterstep]; [n] bounds the rounds. *)
Fixpoint lua_iterstep_loop (call : call_t) (n : nat) (pref : option string)
    (len : nat) : M nat :=
  match n with
  | O => out_of_fuel
  | S n' =>
      lua_pushvalue (lua_upvalueindex 1) ;;
      lua_pushvalue (lua_upvalueindex 2) ;;
      lua_pushvalue (lua_upvalueindex 3) ;;
      lua_call call 2 2 ;;
      lua_insert (-2) ;;
      lua_replace (lua_upvalueindex 3) ;;
      isnil <- lua_isnil (-1) ;;
      if isnil : bool then ret 1%nat
      else
        res <- lua_tolstring (-1) ;;
        let rlen := len_of res in
        if (len <=? rlen)%nat
           && (strncmp (default EmptyString pref) (default EmptyString res) len =? 0)
        then ret 1%nat
        else lua_pop 1 ;; lua_iterstep_loop call n' pref len
  end.

Definition lua_iterstep (call : call_t) (n : nat) : M nat :=
  lua_checkstack 3 ;;
  pref <- lua_tolstring (lua_upvalueindex 4) ;;
  lua_iterstep_loop call n pref (len_of pref).

Definition lua_ipairsiterator (call : call_t) : M nat :=
  lua_checkstack 2 ;;
  lua_getglobal "ipairs" ;;
  lua_pushvalue (lua_upvalueindex 1) ;;
  lua_call call 1 3 ;;
  lua_pushvalue 1 ;;
  lua_pushcclosure CF_iterstep 4 ;;
  ret 1%nat.

(** The C functions a Lua value can stand for, with [call] for the calls
    they make themselves. *)
Definition cfunction_body (call : call_t) (n : nat) (c : cfunction) : M nat :=
  match c with
  | CF_returnnil => lua_returnnil
  | CF_niliterator => lua_niliterator
  | CF_iterstep => lua_iterstep call n
  | CF_ipairsiterator => lua_ipairsiterator call
  | CF_ipairs => luaB_ipairs
  | CF_ipairsaux => ipairsaux
  end.

(** [lua_call] on a value: C functions of this file and of the base
    library run their bodies, host functions ask the oracle. *)
Fixpoint lua_callv (fuel : nat) (f : value) (args : list value) : M (list value) :=
  match fuel with
  | O => out_of_fuel
  | S n =>
      match f with
      | VFun (HostFun h) => call_host h args
      | VFun (CFun c) => in_frame None args (cfunction_body (lua_callv n) n c)
      | VFun (CClosure r) =>
          fun w =>
            match closures w !! r with
            | Some cl =>
                in_frame (Some r) args (cfunction_body (lua_callv n) n (cl_fn cl)) w
            | None => Undefined BadPointer
            end
      | _ => luaL_error "attempt to call a non-function value"
      end
  end.

Definition clonestr (srcstr : option string) : M ptr :=
  match srcstr with
  | None => undefined_behaviour NullRead
  | Some s =>
      let len := (strlen s + 1)%nat in
      dststr <- malloc len ;;
      _ <- strlcpy dststr s len ;;
      ret dststr
  end.

(** Generator init function. *)
Definition lua_initgenerator (call : call_t) (text : string) : M unit :=
  lua_checkstack 2 ;;
  lua_pushlightuserdata REGISTRY_KEY_GENERATOR ;;
  lua_gettable LUA_REGISTRYINDEX ;;
  lua_pushstring (Some text) ;;
  lua_call call 1 1 ;;
  lua_pushlightuserdata REGISTRY_KEY_ITERATOR ;;
  lua_insert (-2) ;;
  lua_settable LUA_REGISTRYINDEX.

(** Generator step function. *)
Definition lua_stepgenerator (call : call_t) : M ptr :=
  lua_checkstack 1 ;;
  lua_pushlightuserdata REGISTRY_KEY_ITERATOR ;;
  lua_gettable LUA_REGISTRYINDEX ;;
  lua_call call 0 1 ;;
  isnil <- lua_isnil (-1) ;;
  if isnil : bool then
    lua_pop 1 ;;
    ret NULL
  else
    str <- lua_tolstring (-1) ;;
    let len := len_of str in
    newstr <- malloc (len + 1) ;;
    strncpy newstr str (len + 1) ;;
    ret newstr.

(** Wrapper handed to the line-editing library; it reaches the Lua state
    through [globalL]. *)
Definition gen_function (call : call_t) (text : string) (state : Z) : M ptr :=
  l <- get globalL ;;
  if l : bool then
    (if state =? 0 then lua_initgenerator call text else ret tt) ;;
    lua_stepgenerator call
  else undefined_behaviour NullRead.

(** ** The line-editing library, as the file meets it *)

Definition signal (sig : Z) (disp : sig_t) : M sig_t :=
  if sig =? SIGINT then
    old <- get sigint ;;
    modify (set_sigint disp) ;;
    log (EvSignal sig disp) ;;
    ret old
  else undefined_behaviour NotModelled.

Definition rl_free_line_state : M unit := log EvFreeLineState.
Definition rl_cleanup_after_signal : M unit := log EvCleanupAfterSignal.

(** One generation: the library calls the entry function with state 0 and
    then with the following states until it gets NULL; it reads each
    candidate and owns its storage. *)
Fixpoint rl_generation (call : call_t) (n : nat) (text : string) (state : Z)
    : M (list string) :=
  match n with
  | O => out_of_fuel
  | S n' =>
      entry <- get rl_completion_entry_function ;;
      match entry with
      | None => ret []
      | Some gen_function_p =>
          p <- gen_function call text state ;;
          match p with
          | NULL => ret []
          | _ =>
              s <- deref p ;;
              free p ;;
              rest <- rl_generation call n' text (state + 1) ;;
              ret (s :: rest)
          end
      end
  end.

Definition run_generation (fuel : nat) (text : string) : M (list string) :=
  rl_generation (lua_callv fuel) fuel text 0.

Fixpoint run_completions (fuel : nat) (texts : list string)
    : M (list (list string)) :=
  match texts with
  | [] => ret []
  | t :: ts =>
      c <- run_generation fuel t ;;
      cs <- run_completions fuel ts ;;
      ret (c :: cs)
  end.

(** The handler of this file: [siglongjmp(globalEnv, sig)]; the result is
    the value [sigsetjmp] then returns. *)
Definition readline_sigint (sig : Z) : Z := siglongjmp_value sig.

(** The line the library returns is in storage of its own allocation. *)
Definition rl_line (s : string) : M ptr :=
  fun w =>
    let a := nalloc w in
    Ok (Heap a) (set_heap (<[a := c_str s]> (heap w)) (S a) w).

(** [readline(prompt)] between [sigsetjmp] and its return: the completion
    requests of the script, then a line, the null sentinel, or SIGINT
    delivered to the installed handler. *)
Definition readline (fuel : nat) (prompt : option string) (script : rl_script)
    : M read_result :=
  _ <- run_completions fuel (rl_completions script) ;;
  match rl_ending script with
  | RlLine s => p <- rl_line s ;; ret (Returned p)
  | RlNull => ret (Returned NULL)
  | RlSigint =>
      d <- get sigint ;;
      match d with
      | SIG_FN readline_sigint_h => ret (Jumped (readline_sigint SIGINT))
      | _ => undefined_behaviour NotModelled
      end
  end.

Definition stdin : nat := 0%nat.

Definition call_handler (h : nat) (sig : Z) : M unit :=
  log (EvHandler h sig) ;;
  modify (fun w =>
            let r := handler_run h sig (host w, sigint w) in
            set_sigint (snd r) (set_host (fst r) w)).

(** The branch of [lua_readline] taken when [sigsetjmp] returns non-zero.
    When the old handler is [readline_sigint] itself, calling it jumps back
    to [sigsetjmp] and the branch is entered again. *)
Fixpoint lua_readline_interrupted (n : nat) (sig : Z) (old_sigint : sig_t)
    : M nat :=
  rl_free_line_state ;;
  rl_cleanup_after_signal ;;
  signal SIGINT old_sigint ;;
  match old_sigint with
  | SIG_DFL | SIG_ERR | SIG_IGN => ret 0%nat
  | SIG_FN (foreign_handler h) => call_handler h sig ;; ret 0%nat
  | SIG_FN readline_sigint_h =>
      match n with
      | O => out_of_fuel
      | S n' => lua_readline_interrupted n' (readline_sigint sig) old_sigint
      end
  end.

(** Lines 177 to 203: the generator goes to the registry, the library is
    pointed at [gen_function], and the SIGINT handler is installed. *)
Definition lua_readline_begin : M (option string * sig_t) :=
  prompt <- lua_tolstring 1 ;;
  type <- lua_type 2 ;;
  lua_checkstack 2 ;;
  lua_pushlightuserdata REGISTRY_KEY_GENERATOR ;;
  (if type =? LUA_TFUNCTION then
     lua_pushvalue 2
   else if type =? LUA_TTABLE then
     lua_pushvalue 2 ;;
     lua_pushcclosure CF_ipairsiterator 1
   else
     lua_pushcfunction CF_niliterator) ;;
  lua_settable LUA_REGISTRYINDEX ;;
  modify (set_rl_completion_entry_function (Some gen_function_p)) ;;
  modify (set_globalL true) ;;
  old_sigint <- signal SIGINT (SIG_FN readline_sigint_h) ;;
  ret (prompt, old_sigint).

(** Wrapper function for the readline function. *)
Definition lua_readline (fuel : nat) (script : rl_script) : M nat :=
  b <- lua_readline_begin ;;
  let prompt := fst b in
  let old_sigint := snd b in
  r <- readline fuel prompt script ;;
  match r with
  | Jumped sig => lua_readline_interrupted fuel sig old_sigint
  | Returned line =>
      signal SIGINT old_sigint ;;
      eof <- (match line with
              | NULL =>
                  fd <- get rl_instream ;;
                  get (fun w => feof w (default stdin fd))
              | _ => ret false
              end) ;;
      if eof : bool then ret 0%nat
      else
        text <- (match line with
                 | NULL => ret None
                 | _ => s <- deref line ;; ret (Some s)
                 end) ;;
        lua_pushstring text ;;
        free line ;;
        ret 1%nat
  end.

(** Wrapper function to get [rl_readline_name]. *)
Definition lua_getname : M nat :=
  p <- get rl_readline_name ;;
  text <- (match p with
           | NULL => ret None
           | _ => s <- deref p ;; ret (Some s)
           end) ;;
  lua_pushstring text ;;
  ret 1%nat.

(** Wrapper function to set [rl_readline_name]. *)
Definition lua_setname : M nat :=
  name <- lua_tolstring 1 ;;
  old <- get rl_readline_name ;;
  (match old with
   | NULL => ret tt
   | _ => free old
   end) ;;
  p <- clonestr name ;;
  modify (set_rl_readline_name p) ;;
  match p with
  | NULL => luaL_error "Out of memory"
  | _ => ret 0%nat
  end.

(** What the host receives from a C function that returned [n]. *)
Definition results (n : nat) (w : World) : list value := lastn n (stack w).

(** ** Notions used in the statements and proofs *)

(** A callee leaves the caller's frame alone. *)
Definition call_keeps_frame (call : call_t) : Prop :=
  forall f args w vs w', call f args w = Ok vs w' ->
    stack w' = stack w /\ self w' = self w.

Definition iter_closure (t : nat) (key : value) (p : value) : closure :=
  mkClosure CF_iterstep [VFun (CFun CF_ipairsaux); VTable t; key; p].



Definition iter_world (t r : nat) (p : string) (key : value) (w : World) : World :=
  set_closures (<[r := iter_closure t key (VStr p)]> (closures w)) (next_closure w) w.

(** What a generation does once the iterator is in the registry. *)
Definition gen_tail (call : call_t) (n : nat) (text : string) (state : Z)
    : M (list string) :=
  p <- lua_stepgenerator call ;;
  match p with
  | NULL => ret []
  | _ =>
      s <- deref p ;;
      free p ;;
      rest <- rl_generation call n text state ;;
      ret (s :: rest)
  end.



Definition prompt_of (w : World) : option string :=
  match stack w !! 0%nat with
  | Some (VStr s) => Some s
  | Some (VNum n) => Some (number_tostring n)
  | _ => None
  end.

(** [lua_tolstring(L, 1, NULL)] turns a number prompt into a string. *)
Definition prompt_world (w : World) : World :=
  match stack w !! 0%nat with
  | Some (VNum n) => set_stack (<[0%nat := VStr (number_tostring n)]> (stack w)) w
  | _ => w
  end.

(** The generator chosen for the second argument, and the world with the
    closure made for a table. *)
Definition generator_of (w : World) : value :=
  match stack w !! 1%nat with
  | Some (VFun f) => VFun f
  | Some (VTable t) => VFun (CClosure (next_closure w))
  | _ => VFun (CFun CF_niliterator)
  end.

Definition source_world (w : World) : World :=
  match stack w !! 1%nat with
  | Some (VTable t) =>
      set_closures
        (<[next_closure w := mkClosure CF_ipairsiterator [VTable t]]> (closures w))
        (S (next_closure w)) (prompt_world w)
  | _ => prompt_world w
  end.

Definition after_begin (w : World) : World :=
  set_trace (trace w ++ [EvSignal SIGINT (SIG_FN readline_sigint_h)])
    (set_sigint (SIG_FN readline_sigint_h)
       (set_globalL true
          (set_rl_completion_entry_function (Some gen_function_p)
             (set_registry
                (<[REGISTRY_KEY_GENERATOR := generator_of w]> (registry w))
                (source_world w))))).

Definition is_host_call (e : event) : bool :=
  match e with EvHostCall _ _ => true | _ => false end.

(** From [w] to [w']: the signal disposition, the input stream, the
    library's pointers and the generator of the registry are unchanged, and
    the trace has grown by calls of host functions only. *)
Definition stable (w w' : World) : Prop :=
  sigint w' = sigint w
  /\ rl_instream w' = rl_instream w
  /\ feof w' = feof w
  /\ globalL w' = globalL w
  /\ rl_completion_entry_function w' = rl_completion_entry_function w
  /\ rl_readline_name w' = rl_readline_name w
  /\ malloc_ok w' = malloc_ok w
  /\ registry w' !! REGISTRY_KEY_GENERATOR = registry w !! REGISTRY_KEY_GENERATOR
  /\ exists ev, trace w' = trace w ++ ev /\ Forall (fun e => is_host_call e = true) ev.

Definition preserves {A} (m : M A) : Prop :=
  forall w a w', m w = Ok a w' -> stable w w'.

Definition events_since (w w' : World) : list event :=
  drop (length (trace w)) (trace w').

Definition count_event (P : event -> bool) (tr : list event) : nat :=
  length (List.filter P tr).




(** The dispositions passed to [signal], in order. *)
Definition signal_calls (tr : list event) : list sig_t :=
  flat_map (fun e => match e with EvSignal _ d => [d] | _ => [] end) tr.

(** What the caller receives first from a C function that returned [n]
    values; nil when there is none. *)
Definition first_result (n : nat) (w : World) : value := hd VNil (results n w).

(** The world [lua_readline] leaves after an interrupt, from the world [w2]
    in which the signal arrived; [old] is the disposition saved on entry. *)
Definition interrupted_world (old : sig_t) (w2 : World) : World :=
  let w3 :=
    set_trace (trace w2 ++ [EvFreeLineState; EvCleanupAfterSignal; EvSignal SIGINT old])
      (set_sigint old w2) in
  match old with
  | SIG_FN (foreign_handler h) =>
      let r := handler_run h SIGINT (host w3, old) in
      set_sigint (snd r)
        (set_host (fst r) (set_trace (trace w3 ++ [EvHandler h SIGINT]) w3))
  | _ => w3
  end.

Definition returned_world (old : sig_t) (w2 : World) : World :=
  set_trace (trace w2 ++ [EvSignal SIGINT old]) (set_sigint old w2).

Definition line_world (s : string) (old : sig_t) (w2 : World) : World :=
  set_heap (delete (nalloc w2) (heap w2)) (S (nalloc w2))
    (set_stack (stack w2 ++ [VStr (c_str s)]) (returned_world old w2)).

(** The events of an interrupted read, after those of the completion
    requests. *)
Definition interrupt_events (old : sig_t) : list event :=
  [EvFreeLineState; EvCleanupAfterSignal; EvSignal SIGINT old]
  ++ match old with
     | SIG_FN (foreign_handler h) => [EvHandler h SIGINT]
     | _ => []
     end.

(** The name slot holds nothing, or storage that [malloc] handed out and
    that is still allocated. *)
Definition name_slot_owned (w : World) : Prop :=
  rl_readline_name w = NULL
  \/ exists a x, rl_readline_name w = Heap a /\ heap w !! a = Some x.

Definition release_name (w : World) : gmap nat string :=
  match rl_readline_name w with
  | Heap a => delete a (heap w)
  | _ => heap w
  end.

(** What a generation over a table leaves alone: the generator, the
    closures other than its own iterator [r], and what the generator reads. *)
Definition keeps_source (r : nat) (w w' : World) : Prop :=
  registry w' !! REGISTRY_KEY_GENERATOR = registry w !! REGISTRY_KEY_GENERATOR
  /\ (forall g, g <> r -> closures w' !! g = closures w !! g)
  /\ next_closure w' = next_closure w
  /\ tables w' = tables w
  /\ globals w' = globals w.







End Binding.

Arguments Ok {H A} a w.
Arguments LuaError {H A} e w.
Arguments Undefined {H A} u.
Arguments OutOfFuel {H A}.

Declare Scope lua_scope.
Delimit Scope lua_scope with lua.
Notation "x <- c1 ;; c2" := (bind c1 (fun x => c2))
  (at level 100, c1 at next level, right associativity) : lua_scope.
Notation "c1 ;; c2" := (bind c1 (fun _ => c2))
  (at level 100, c2 at level 200, right associativity) : lua_scope.

(** * The library table

    [luaopen_readline] makes the table of the library from the array [R].
    The table and the four wrappers are values of their own here: the
    table is keyed by strings and lives on the Lua stack of the loader. *)

Module Registration.

(** The C functions listed in [R]. *)
Inductive cfunc :=
  | lua_readline_p | lua_addhistory_p | lua_getname_p | lua_setname_p.

(** [reg_t]: both fields are pointers and may be null. *)
Record reg_t := mkReg { name : option string; func : option cfunc }.

(** The functions provided by this library. *)
Definition R : list reg_t :=
  [ mkReg (Some "readline"%string) (Some lua_readline_p);
    mkReg (Some "addhistory"%string) (Some lua_addhistory_p);
    mkReg (Some "getname"%string) (Some lua_getname_p);
    mkReg (Some "setname"%string) (Some lua_setname_p);
    mkReg None None ].

Inductive lvalue :=
  | LFun (f : cfunc)
  | LTable (t : gmap string cfunc).

Inductive fault := ReadPastArray | NotATable | EmptyStack.

Definition lua_pushcfunction (f : cfunc) (st : list lvalue) : list lvalue :=
  st ++ [LFun f].

Definition lua_createtable (narr nrec : nat) (st : list lvalue) : list lvalue :=
  st ++ [LTable ∅].

(** [lua_setfield(L, idx, k)]: [t[k] = v] for the value [v] on the top,
    which is popped; [k] is read as a C string. *)
Definition lua_setfield (idx : Z) (k : string) (st : list lvalue)
    : list lvalue + fault :=
  match unsnoc st with
  | Some (st', LFun f) =>
      match index2adr (length st) idx with
      | SStack i =>
          match st' !! i with
          | Some (LTable t) => inl (<[i := LTable (<[c_str k := f]> t)]> st')
          | _ => inr NotATable
          end
      | _ => inr NotATable
      end
  | Some (_, LTable _) => inr NotATable
  | None => inr EmptyStack
  end.

(** Puts a set of C functions into a table: the loop runs to the first
    entry whose name or function is null; an array without such an entry
    is read past its end. *)
Fixpoint lua_reg (reg : list reg_t) (st : list lvalue) : list lvalue + fault :=
  match reg with
  | [] => inr ReadPastArray
  | r :: reg' =>
      match name r, func r with
      | Some n, Some f =>
          match lua_setfield (-2) n (lua_pushcfunction f st) with
          | inl st' => lua_reg reg' st'
          | inr e => inr e
          end
      | _, _ => inl st
      end
  end.

(** Creates a table representing the library functions and returns it. *)
Definition luaopen_readline (st : list lvalue) : (nat * list lvalue) + fault :=
  match lua_reg R (lua_createtable 0 4 st) with
  | inl st' => inl (1%nat, st')
  | inr e => inr e
  end.

(** An entry the loop of [lua_reg] goes through. *)
Definition complete (r : reg_t) : bool :=
  match name r, func r with Some _, Some _ => true | _, _ => false end.

Definition key_of (r : reg_t) : string := c_str (default EmptyString (name r)).

End Registration.

(** ** A host for the examples

    Host function 0 is a completion source in the sense of the file: called
    on a prefix, it returns the iterator, host function 1.  Host function 1
    returns "alpha", "beta" and then nil on successive calls.  Every other
    host function raises an error.  The signal handlers of this host count
    their calls and leave the disposition as they find it. *)

Definition example_host_call (h : nat) (args : list value) (n : nat)
    : hresult * nat :=
  match h with
  | 0%nat => (HRet [VFun (HostFun 1)], 0%nat)
  | 1%nat =>
      (match n with
       | 0%nat => HRet [VStr "alpha"]
       | 1%nat => HRet [VStr "beta"]
       | _ => HRet [VNil]
       end, S n)
  | _ => (HErr (VStr "boom"), n)
  end.

Definition example_handler_run (h : nat) (sig : Z) (s : nat * sig_t)
    : nat * sig_t :=
  (S (fst s), snd s).

Definition example_host : Host :=
  mkHost nat example_host_call example_handler_run
    (fun n => NilZero.string_of_int (Z.to_int n)).

(** A process in which nothing has been read yet: the arguments of the
    call on the stack, one table in the store, the standard [ipairs]. *)
Definition example_world (args : list value) (tb : gmap Z value) (d : sig_t)
    (ok : nat -> bool) : @World example_host :=
  @mkWorld example_host args None ∅ 0%nat {[ 7%nat := tb ]} ∅
    {[ "ipairs"%string := VFun (CFun CF_ipairs) ]} 0%nat ∅ 0%nat ok
    NULL None false d None (fun _ => false) [].

Definition example_table : gmap Z value :=
  list_to_map [(1, VStr "ab"); (2, VStr "xy"); (3, VStr "ac")].

(** An entry with a NUL byte inside. *)
Definition nul_entry : string := String "a" (String NUL (String "b" EmptyString)).



Definition table_read (tb : gmap Z value) (d : sig_t) : @World example_host :=
  example_world [VStr ">"; VTable 7] tb d (fun _ => true).

Definition callable_read (h : nat) : @World example_host :=
  example_world [VStr ">"; VFun (HostFun h)] ∅ SIG_DFL (fun _ => true).

(** ** A second host

    Host function 0 is a source whose iterator, host function 1, returns
    the number 42 and then nil; host function 2 is a source whose
    iterator, host function 3, returns a boolean. *)

Definition mixed_host_call (h : nat) (args : list value) (n : nat)
    : hresult * nat :=
  match h with
  | 0%nat => (HRet [VFun (HostFun 1)], 0%nat)
  | 1%nat =>
      (match n with
       | 0%nat => HRet [VNum 42]
       | _ => HRet [VNil]
       end, S n)
  | 2%nat => (HRet [VFun (HostFun 3)], 0%nat)
  | 3%nat => (HRet [VBool true], S n)
  | _ => (HErr (VStr "boom"), n)
  end.

Definition mixed_host : Host :=
  mkHost nat mixed_host_call example_handler_run
    (fun n => NilZero.string_of_int (Z.to_int n)).

Definition mixed_read (h : nat) : @World mixed_host :=
  @mkWorld mixed_host [VStr ">"; VFun (HostFun h)] None ∅ 0%nat ∅ ∅
    {[ "ipairs"%string := VFun (CFun CF_ipairs) ]} 0%nat ∅ 0%nat (fun _ => true)
    NULL None false SIG_DFL None (fun _ => false) [].

(** A table whose first entry is a boolean. *)
Definition flag_table : gmap Z value := list_to_map [(1, VBool true)].

(** A process whose name is a string literal of the library. *)
Definition literal_name_world : @World example_host :=
  set_rl_readline_name (Static "other") (example_world [] ∅ SIG_DFL (fun _ => true)).


(** * Correctness *)

(** ** Facts on strings *)

Lemma no_nul_c_str s : no_nul (c_str s) = true.
Proof.
  induction s as [|c r IH]; simpl; [reflexivity|].
  destruct (Ascii.eqb c NUL) eqn:E; simpl; [reflexivity|].
  rewrite E. exact IH.
Qed.

Lemma c_str_no_nul s : no_nul s = true -> c_str s = s.
Proof.
  induction s as [|c r IH]; simpl; [reflexivity|].
  destruct (Ascii.eqb c NUL); simpl; [discriminate|].
  intros Hr. rewrite IH by exact Hr. reflexivity.
Qed.

Lemma c_str_idem s : c_str (c_str s) = c_str s.
Proof. apply c_str_no_nul, no_nul_c_str. Qed.

Lemma take_bytes_all n s : (String.length s <= n)%nat -> take_bytes n s = s.
Proof.
  revert n. induction s as [|c r IH]; intros [|n] Hn; simpl in *; try reflexivity; try lia.
  rewrite IH by lia. reflexivity.
Qed.



Lemma prefix_length p e : String.prefix p e = true -> (String.length p <= String.length e)%nat.
Proof.
  revert e. induction p as [|a p IH]; intros [|b e]; simpl; try lia; try discriminate.
  destruct (ascii_dec a b); [|discriminate]. intros Hp. apply IH in Hp. lia.
Qed.


Lemma entry_matches_prefix p e : entry_matches p e = String.prefix p e.
Proof.
  unfold entry_matches. destruct (String.prefix p e) eqn:E.
  - apply prefix_length in E. rewrite andb_true_r. apply Nat.leb_le. exact E.
  - apply andb_false_r.
Qed.

Local Open Scope lua_scope.

Section Correctness.

Context {H : Host}.

Local Arguments bind : simpl never.
Local Arguments lua_callv : simpl never.
Local Arguments lua_iterstep_loop : simpl never.
Local Arguments rl_generation : simpl never.
Local Arguments cfunction_body : simpl never.
Local Arguments take_bytes : simpl never.
Local Arguments lua_pushcclosure : simpl never.
Local Arguments lua_pushvalue : simpl never.
Local Arguments lua_pushcfunction : simpl never.
Local Arguments lua_settable : simpl never.
Local Arguments lua_gettable : simpl never.
Local Arguments signal : simpl never.
Local Arguments deref : simpl never.
Local Arguments free : simpl never.
Local Arguments lua_pushstring : simpl never.

(** ** Running the primitives on a stack known only at its top *)

Lemma unsnoc_snoc {A} (l : list A) (x : A) : unsnoc (l ++ [x]) = Some (l, x).
Proof. unfold unsnoc. rewrite rev_app_distr. simpl. rewrite rev_involutive. reflexivity. Qed.

Lemma index2adr_top (n : nat) : index2adr (n + 1) (-1) = SStack n.
Proof.
  unfold index2adr. simpl.
  destruct (0 <=? Z.of_nat (n + 1) + -1) eqn:E; [|apply Z.leb_gt in E; lia].
  f_equal. lia.
Qed.

Lemma index2adr_top2 (n : nat) : index2adr (n + 1 + 1) (-2) = SStack n.
Proof.
  unfold index2adr. simpl.
  destruct (0 <=? Z.of_nat (n + 1 + 1) + -2) eqn:E; [|apply Z.leb_gt in E; lia].
  f_equal. lia.
Qed.

Lemma set_stack_same (w : World) : set_stack (stack w) w = w.
Proof. destruct w; reflexivity. Qed.

Lemma set_stack_twice s s' (w : World) : set_stack s (set_stack s' w) = set_stack s w.
Proof. reflexivity. Qed.

Lemma adjust_1 vs : adjust 1 vs = [hd VNil vs].
Proof. destruct vs as [|v [|v' vs]]; reflexivity. Qed.

Lemma bind_Ok {A B} (m : M A) (f : A -> M B) w a w1 :
  m w = Ok a w1 -> bind m f w = f a w1.
Proof. intros Hm. unfold bind. rewrite Hm. reflexivity. Qed.

Lemma bind_inv {A B} (m : M A) (f : A -> M B) w b w2 :
  bind m f w = Ok b w2 -> exists a w1, m w = Ok a w1 /\ f a w1 = Ok b w2.
Proof.
  unfold bind. destruct (m w) as [a w1| | |]; try discriminate.
  intros Hf. exists a, w1. split; [reflexivity | exact Hf].
Qed.

Lemma read_index_top S v (w : World) :
  stack w = S ++ [v] -> read_index (-1) w = Some v.
Proof.
  intros Hs. unfold read_index. rewrite Hs, length_app. simpl length.
  rewrite index2adr_top. rewrite lookup_app_r by lia.
  replace (length S - length S)%nat with 0%nat by lia. reflexivity.
Qed.

Lemma lua_gettable_reg S k (w : World) :
  stack w = S ++ [VLight k] ->
  lua_gettable LUA_REGISTRYINDEX w
  = Ok tt (set_stack (S ++ [default VNil (registry w !! k)]) w).
Proof.
  intros Hs. unfold lua_gettable. rewrite Hs, unsnoc_snoc. reflexivity.
Qed.

Lemma lua_settable_reg S k v (w : World) :
  stack w = (S ++ [VLight k]) ++ [v] ->
  lua_settable LUA_REGISTRYINDEX w
  = Ok tt (set_stack S (set_registry (rawset k v (registry w)) w)).
Proof.
  intros Hs. unfold lua_settable. rewrite Hs, !unsnoc_snoc. reflexivity.
Qed.

Lemma lua_insert_2 S a b (w : World) :
  stack w = (S ++ [a]) ++ [b] ->
  lua_insert (-2) w = Ok tt (set_stack ((S ++ [b]) ++ [a]) w).
Proof.
  intros Hs. unfold lua_insert. rewrite Hs, unsnoc_snoc.
  rewrite !length_app. simpl length. rewrite index2adr_top2.
  rewrite take_app_length, drop_app_length. rewrite <- app_assoc. reflexivity.
Qed.

Lemma lua_call_run call S f args n m (w : World) :
  stack w = S ++ f :: args -> length args = n ->
  lua_call call n m w
  = (vs <- call f args ;;
     modify (fun w' => set_stack (stack w' ++ adjust m vs) w')) (set_stack S w).
Proof.
  intros Hs Hn. unfold lua_call. rewrite Hs.
  replace (length (S ++ f :: args) - (n + 1))%nat with (length S)
    by (rewrite length_app; simpl; lia).
  rewrite drop_app_length, take_app_length.
  rewrite Hn, Nat.eqb_refl. reflexivity.
Qed.

Lemma lua_isnil_top S v (w : World) :
  stack w = S ++ [v] -> lua_isnil (-1) w = Ok (ttype v =? LUA_TNIL) w.
Proof.
  intros Hs. unfold lua_isnil, lua_type, get, bind, ret.
  rewrite (read_index_top S v) by exact Hs. reflexivity.
Qed.

Lemma lua_pop_1 S v (w : World) :
  stack w = S ++ [v] -> lua_pop 1 w = Ok tt (set_stack S w).
Proof.
  intros Hs. unfold lua_pop, modify. rewrite Hs, length_app. simpl length.
  replace (length S + 1 - 1)%nat with (length S) by lia.
  rewrite take_app_length. reflexivity.
Qed.

Lemma lua_tolstring_top_str S s (w : World) :
  stack w = S ++ [VStr s] -> lua_tolstring (-1) w = Ok (Some s) w.
Proof.
  intros Hs. unfold lua_tolstring. rewrite (read_index_top S (VStr s)) by exact Hs.
  reflexivity.
Qed.

Lemma in_frame_keeps slf args body (w : World) vs w' :
  in_frame slf args body w = Ok vs w' -> stack w' = stack w /\ self w' = self w.
Proof.
  unfold in_frame.
  destruct (body (set_self slf (set_stack args w))) as [k w1| | |]; try discriminate.
  intros Hc. inversion Hc; subst. split; reflexivity.
Qed.

Lemma lua_callv_S n f args :
  lua_callv (S n) f args
  = match f with
    | VFun (HostFun h) => call_host h args
    | VFun (CFun c) => in_frame None args (cfunction_body (lua_callv n) n c)
    | VFun (CClosure r) =>
        fun w =>
          match closures w !! r with
          | Some cl =>
              in_frame (Some r) args (cfunction_body (lua_callv n) n (cl_fn cl)) w
          | None => Undefined BadPointer
          end
    | _ => luaL_error "attempt to call a non-function value"
    end.
Proof. reflexivity. Qed.

Lemma lua_callv_keeps_frame fuel : call_keeps_frame (lua_callv fuel).
Proof.
  intros f args w vs w' Hc. destruct fuel as [|n]; [discriminate|].
  rewrite lua_callv_S in Hc.
  destruct f as [| | | | | |[c|r|h]| |]; try discriminate.
  - eapply in_frame_keeps, Hc.
  - destruct (closures w !! r) as [cl|]; [|discriminate].
    eapply in_frame_keeps, Hc.
  - unfold call_host in Hc.
    destruct (fst (host_call h args (host w))); inversion Hc; subst. split; reflexivity.
Qed.

Lemma bind_assoc {A B C} (m : M A) (f : A -> M B) (g : B -> M C) w :
  bind (bind m f) g w = bind m (fun a => bind (f a) g) w.
Proof. unfold bind. destruct (m w); reflexivity. Qed.

Lemma bind_ext {A B} (m : M A) (f g : A -> M B) w :
  (forall a w1, m w = Ok a w1 -> f a w1 = g a w1) -> bind m f w = bind m g w.
Proof.
  intros Hfg. unfold bind. destruct (m w) as [a w1| | |]; try reflexivity.
  apply Hfg. reflexivity.
Qed.

Lemma bind_lua_call {B} call S f args n m (K : unit -> M B) (w : World) :
  stack w = S ++ f :: args -> length args = n ->
  bind (lua_call call n m) K w
  = bind (call f args)
      (fun vs w' => K tt (set_stack (stack w' ++ adjust m vs) w')) (set_stack S w).
Proof.
  intros Hs Hn. unfold bind at 1. rewrite (lua_call_run call S f args n m w Hs Hn).
  unfold bind, modify. destruct (call f args (set_stack S w)); reflexivity.
Qed.

(** [lua_initgenerator], read off the stack: the generator of the registry
    is called on the prefix and what it returns becomes the iterator. *)
Lemma lua_initgenerator_eq call text (w : World) :
  call_keeps_frame call ->
  lua_initgenerator call text w
  = (vs <- call (default VNil (registry w !! REGISTRY_KEY_GENERATOR)) [VStr (c_str text)] ;;
     modify (fun w1 =>
               set_registry (rawset REGISTRY_KEY_ITERATOR (hd VNil vs) (registry w1)) w1)) w.
Proof.
  intros Hk. unfold lua_initgenerator.
  rewrite (bind_Ok _ _ _ true w) by reflexivity.
  unfold lua_pushlightuserdata, lua_pushstring.
  erewrite bind_Ok by reflexivity.
  erewrite bind_Ok by (eapply lua_gettable_reg; reflexivity).
  erewrite bind_Ok by reflexivity.
  erewrite bind_lua_call; [|simpl; rewrite <- app_assoc; reflexivity|reflexivity].
  simpl. rewrite !set_stack_twice, set_stack_same.
  apply bind_ext. intros vs w1 Hc.
  destruct (Hk _ _ _ _ _ Hc) as [Hst _].
  erewrite bind_Ok by reflexivity.
  erewrite bind_Ok by (eapply lua_insert_2; simpl; rewrite adjust_1; reflexivity).
  erewrite lua_settable_reg by (simpl; reflexivity).
  unfold modify. simpl. rewrite Hst.
  f_equal. destruct w1; simpl in *. subst. reflexivity.
Qed.

(** [lua_stepgenerator], read off the stack.  A candidate stays on the Lua
    stack; its copy goes to fresh storage. *)
Lemma lua_stepgenerator_eq call (w : World) :
  call_keeps_frame call ->
  lua_stepgenerator call w
  = (vs <- call (default VNil (registry w !! REGISTRY_KEY_ITERATOR)) [] ;;
     match hd VNil vs with
     | VNil => ret NULL
     | v =>
         push v ;;
         str <- lua_tolstring (-1) ;;
         newstr <- malloc (len_of str + 1) ;;
         strncpy newstr str (len_of str + 1) ;;
         ret newstr
     end) w.
Proof.
  intros Hk. unfold lua_stepgenerator.
  rewrite (bind_Ok _ _ _ true w) by reflexivity.
  unfold lua_pushlightuserdata.
  erewrite bind_Ok by reflexivity.
  erewrite bind_Ok by (eapply lua_gettable_reg; reflexivity).
  erewrite bind_lua_call; [|simpl; reflexivity|reflexivity].
  simpl. rewrite !set_stack_twice, set_stack_same.
  apply bind_ext. intros vs w1 Hc.
  destruct (Hk _ _ _ _ _ Hc) as [Hst _].
  rewrite adjust_1.
  erewrite bind_Ok by (eapply lua_isnil_top; reflexivity).
  destruct (hd VNil vs) eqn:Hv; simpl; try reflexivity.
  erewrite bind_Ok by (eapply lua_pop_1; reflexivity).
  simpl. rewrite set_stack_twice, set_stack_same. reflexivity.
Qed.
(** ** What the C functions of the file return *)

Lemma lua_callv_CFun n c args (w : World) :
  lua_callv (S n) (VFun (CFun c)) args w
  = in_frame None args (cfunction_body (lua_callv n) n c) w.
Proof. reflexivity. Qed.

Lemma lua_callv_CClosure n r cl args (w : World) :
  closures w !! r = Some cl ->
  lua_callv (S n) (VFun (CClosure r)) args w
  = in_frame (Some r) args (cfunction_body (lua_callv n) n (cl_fn cl)) w.
Proof. intros Hc. rewrite lua_callv_S, Hc. reflexivity. Qed.

Lemma lua_callv_HostFun n h args (w : World) :
  lua_callv (S n) (VFun (HostFun h)) args w = call_host h args w.
Proof. reflexivity. Qed.

Lemma in_frame_Ok slf args body (w : World) k w1 :
  body (set_self slf (set_stack args w)) = Ok k w1 ->
  in_frame slf args body w
  = Ok (lastn k (stack w1)) (set_self (self w) (set_stack (stack w) w1)).
Proof. intros Hb. unfold in_frame. rewrite Hb. reflexivity. Qed.

Ltac step := erewrite bind_Ok by reflexivity; simpl.

Lemma callv_returnnil n args (w : World) :
  lua_callv (S n) (VFun (CFun CF_returnnil)) args w = Ok [] w.
Proof.
  rewrite lua_callv_CFun. erewrite in_frame_Ok by reflexivity.
  simpl. unfold lastn. rewrite Nat.sub_0_r, drop_all.
  f_equal. destruct w; reflexivity.
Qed.

Lemma callv_niliterator n args (w : World) :
  lua_callv (S n) (VFun (CFun CF_niliterator)) args w
  = Ok [VFun (CFun CF_returnnil)] w.
Proof.
  rewrite lua_callv_CFun. erewrite in_frame_Ok by reflexivity.
  simpl. unfold lastn. rewrite length_app. simpl.
  replace (length args + 1 - 1)%nat with (length args) by lia.
  rewrite drop_app_length. f_equal. destruct w; reflexivity.
Qed.

Lemma callv_ipairs n t (w : World) :
  lua_callv (S n) (VFun (CFun CF_ipairs)) [VTable t] w
  = Ok [VFun (CFun CF_ipairsaux); VTable t; VNum 0] w.
Proof.
  rewrite lua_callv_CFun. erewrite in_frame_Ok by reflexivity.
  simpl. f_equal. destruct w; reflexivity.
Qed.

Lemma callv_ipairsaux n t tb i (w : World) :
  tables w !! t = Some tb ->
  lua_callv (S n) (VFun (CFun CF_ipairsaux)) [VTable t; VNum i] w
  = Ok (match rawgeti tb (i + 1) with
        | VNil => []
        | v => [VNum (i + 1); v]
        end) w.
Proof.
  intros Ht. rewrite lua_callv_CFun. unfold in_frame, cfunction_body, ipairsaux.
  step. step. step.
  unfold lua_rawgeti at 1. unfold bind at 1. simpl. rewrite Ht.
  unfold push, modify. simpl.
  destruct (rawgeti tb (i + 1)) eqn:Hv; simpl; f_equal; destruct w; reflexivity.
Qed.

Lemma read_index_up (i : nat) r cl (w : World) :
  self w = Some r -> closures w !! r = Some cl ->
  read_index (lua_upvalueindex (Z.of_nat (S i))) w = cl_up cl !! i.
Proof.
  intros Hs Hc. unfold read_index, index2adr, lua_upvalueindex.
  assert (Hi : LUA_GLOBALSINDEX - Z.of_nat (S i) < LUA_GLOBALSINDEX) by lia.
  unfold LUA_GLOBALSINDEX, LUA_REGISTRYINDEX in *.
  destruct (0 <? -10002 - Z.of_nat (S i)) eqn:E1; [apply Z.ltb_lt in E1; lia|].
  destruct (-10000 <? -10002 - Z.of_nat (S i)) eqn:E2; [apply Z.ltb_lt in E2; lia|].
  destruct (-10002 - Z.of_nat (S i) =? -10000) eqn:E3; [apply Z.eqb_eq in E3; lia|].
  destruct (-10002 - Z.of_nat (S i) <? -10002) eqn:E4; [|apply Z.ltb_ge in E4; lia].
  unfold upvalues. rewrite Hs, Hc. f_equal. lia.
Qed.

Lemma write_index_up (i : nat) r cl v (w : World) :
  self w = Some r -> closures w !! r = Some cl ->
  write_index (lua_upvalueindex (Z.of_nat (S i))) v w
  = set_closures (<[r := mkClosure (cl_fn cl) (<[i := v]> (cl_up cl))]> (closures w))
      (next_closure w) w.
Proof.
  intros Hs Hc. unfold write_index, index2adr, lua_upvalueindex.
  unfold LUA_GLOBALSINDEX, LUA_REGISTRYINDEX in *.
  destruct (0 <? -10002 - Z.of_nat (S i)) eqn:E1; [apply Z.ltb_lt in E1; lia|].
  destruct (-10000 <? -10002 - Z.of_nat (S i)) eqn:E2; [apply Z.ltb_lt in E2; lia|].
  destruct (-10002 - Z.of_nat (S i) =? -10000) eqn:E3; [apply Z.eqb_eq in E3; lia|].
  destruct (-10002 - Z.of_nat (S i) <? -10002) eqn:E4; [|apply Z.ltb_ge in E4; lia].
  rewrite Hs, Hc. do 4 f_equal. lia.
Qed.

Lemma lua_pushvalue_up (i : nat) r cl v (w : World) :
  self w = Some r -> closures w !! r = Some cl -> cl_up cl !! i = Some v ->
  lua_pushvalue (lua_upvalueindex (Z.of_nat (S i))) w
  = Ok tt (set_stack (stack w ++ [v]) w).
Proof.
  intros Hs Hc Hv. unfold lua_pushvalue, get, bind, push, modify.
  rewrite (read_index_up i r cl w Hs Hc), Hv. reflexivity.
Qed.

Lemma callv_closure_run n r c ups args (w : World) k w1 :
  closures w !! r = Some (mkClosure c ups) ->
  cfunction_body (lua_callv n) n c (set_self (Some r) (set_stack args w)) = Ok k w1 ->
  lua_callv (S n) (VFun (CClosure r)) args w
  = Ok (lastn k (stack w1)) (set_self (self w) (set_stack (stack w) w1)).
Proof.
  intros Hc Hb. rewrite (lua_callv_CClosure _ _ _ _ _ Hc). simpl cl_fn.
  apply in_frame_Ok. exact Hb.
Qed.

(** The generator made for a table: called on a prefix, it makes the
    closure of [lua_iterstep] over [ipairs(table)] and that prefix. *)
Lemma callv_ipairsiterator n r t arg (w : World) :
  closures w !! r = Some (mkClosure CF_ipairsiterator [VTable t]) ->
  globals w !! "ipairs"%string = Some (VFun (CFun CF_ipairs)) ->
  lua_callv (S (S n)) (VFun (CClosure r)) [arg] w
  = Ok [VFun (CClosure (next_closure w))]
      (set_closures (<[next_closure w := iter_closure t (VNum 0) arg]> (closures w))
         (S (next_closure w)) w).
Proof.
  intros Hc Hg.
  erewrite callv_closure_run; [| exact Hc |].
  2:{ unfold cfunction_body, lua_ipairsiterator.
      step. step. rewrite Hg. simpl.
      erewrite bind_Ok
        by (eapply (lua_pushvalue_up 0); [reflexivity | exact Hc | reflexivity]).
      erewrite bind_lua_call with (S := [arg]); [|reflexivity|reflexivity].
      erewrite bind_Ok by apply callv_ipairs. simpl.
      step. unfold lua_pushcclosure. step. reflexivity. }
  simpl. f_equal; destruct w; reflexivity.
Qed.

Lemma lua_replace_up (i : nat) st v r cl (w : World) :
  stack w = st ++ [v] -> self w = Some r -> closures w !! r = Some cl ->
  lua_replace (lua_upvalueindex (Z.of_nat (S i))) w
  = Ok tt (set_stack st
             (set_closures (<[r := mkClosure (cl_fn cl) (<[i := v]> (cl_up cl))]> (closures w))
                (next_closure w) w)).
Proof.
  intros Hst Hs Hc. unfold lua_replace. rewrite Hst, unsnoc_snoc.
  rewrite (write_index_up i r cl v w Hs Hc). simpl.
  rewrite Hst, length_app. simpl.
  replace (length st + 1 - 1)%nat with (length st) by lia.
  rewrite take_app_length. reflexivity.
Qed.

Lemma lua_tolstring_up_str (i : nat) r cl s (w : World) :
  self w = Some r -> closures w !! r = Some cl -> cl_up cl !! i = Some (VStr s) ->
  lua_tolstring (lua_upvalueindex (Z.of_nat (S i))) w = Ok (Some s) w.
Proof.
  intros Hs Hc Hv. unfold lua_tolstring.
  rewrite (read_index_up i r cl w Hs Hc), Hv. reflexivity.
Qed.

Lemma lua_iterstep_loop_S call n pref len :
  lua_iterstep_loop call (S n) pref len
  = (lua_pushvalue (lua_upvalueindex 1) ;;
     lua_pushvalue (lua_upvalueindex 2) ;;
     lua_pushvalue (lua_upvalueindex 3) ;;
     lua_call call 2 2 ;;
     lua_insert (-2) ;;
     lua_replace (lua_upvalueindex 3) ;;
     isnil <- lua_isnil (-1) ;;
     if isnil : bool then ret 1%nat
     else
       res <- lua_tolstring (-1) ;;
       if (len <=? len_of res)%nat
          && (strncmp (default EmptyString pref) (default EmptyString res) len =? 0)
       then ret 1%nat
       else lua_pop 1 ;; lua_iterstep_loop call n pref len).
Proof. reflexivity. Qed.



(** ** Generations *)

Lemma rl_generation_S call n text state :
  rl_generation call (S n) text state
  = (entry <- get rl_completion_entry_function ;;
     match entry with
     | None => ret []
     | Some gen_function_p =>
         p <- gen_function call text state ;;
         match p with
         | NULL => ret []
         | _ =>
             s <- deref p ;;
             free p ;;
             rest <- rl_generation call n text (state + 1) ;;
             ret (s :: rest)
         end
     end).
Proof. reflexivity. Qed.

Lemma rl_generation_first call n text (w : World) :
  rl_completion_entry_function w = Some gen_function_p -> globalL w = true ->
  rl_generation call (S n) text 0 w
  = (lua_initgenerator call text ;; gen_tail call n text 1) w.
Proof.
  intros He Hg. rewrite rl_generation_S. unfold gen_tail, gen_function, get, bind.
  rewrite He, Hg. simpl.
  destruct (lua_initgenerator call text w) as [[] w1| | |]; try reflexivity.
Qed.


Lemma gen_tail_nil call n text state (w : World) vs w1 :
  call_keeps_frame call ->
  call (default VNil (registry w !! REGISTRY_KEY_ITERATOR)) [] w = Ok vs w1 ->
  hd VNil vs = VNil ->
  gen_tail call n text state w = Ok [] w1.
Proof.
  intros Hk Hc Hv. unfold gen_tail. unfold bind at 1.
  rewrite (lua_stepgenerator_eq call w Hk).
  erewrite bind_Ok by exact Hc. rewrite Hv. reflexivity.
Qed.





(** ** The prologue of [lua_readline] *)

Lemma index2adr_1 n : index2adr n 1 = SStack 0.
Proof. reflexivity. Qed.

Lemma index2adr_2 n : index2adr n 2 = SStack 1.
Proof. reflexivity. Qed.

Lemma lua_type_2 (w : World) :
  lua_type 2 w
  = Ok (match stack w !! 1%nat with Some v => ttype v | None => LUA_TNONE end) w.
Proof. unfold lua_type, get, read_index. rewrite index2adr_2. reflexivity. Qed.

Lemma lua_tolstring_1 (w : World) :
  lua_tolstring 1 w = Ok (prompt_of w) (prompt_world w).
Proof.
  unfold lua_tolstring, read_index, write_index, prompt_of, prompt_world.
  rewrite index2adr_1.
  destruct (stack w !! 0%nat) as [[]|]; reflexivity.
Qed.

Lemma prompt_world_stack_1 (w : World) :
  stack (prompt_world w) !! 1%nat = stack w !! 1%nat.
Proof.
  unfold prompt_world. destruct (stack w !! 0%nat) as [[]|]; try reflexivity.
  simpl. apply list_lookup_insert_ne. lia.
Qed.

Lemma read_index_2_snoc v x (w : World) :
  stack w !! 1%nat = Some v -> read_index 2 (set_stack (stack w ++ [x]) w) = Some v.
Proof.
  intros Hv. unfold read_index. rewrite index2adr_2. simpl.
  apply lookup_app_l_Some. exact Hv.
Qed.

Lemma lua_pushvalue_2 v x (w : World) :
  stack w !! 1%nat = Some v ->
  lua_pushvalue 2 (set_stack (stack w ++ [x]) w)
  = Ok tt (set_stack ((stack w ++ [x]) ++ [v]) w).
Proof.
  intros Hv. unfold lua_pushvalue, get, bind, push, modify.
  rewrite (read_index_2_snoc v x w Hv). reflexivity.
Qed.

Lemma lua_pushcclosure_1 c st v (w : World) :
  stack w = st ++ [v] ->
  lua_pushcclosure c 1 w
  = Ok tt (set_stack (st ++ [VFun (CClosure (next_closure w))])
             (set_closures (<[next_closure w := mkClosure c [v]]> (closures w))
                (S (next_closure w)) w)).
Proof.
  intros Hs. unfold lua_pushcclosure. rewrite Hs, length_app. simpl.
  destruct (length st + 1 <? 1)%nat eqn:E; [apply Nat.ltb_lt in E; lia|].
  unfold lastn. rewrite length_app. simpl.
  replace (length st + 1 - 1)%nat with (length st) by lia.
  rewrite drop_app_length, take_app_length. reflexivity.
Qed.

Lemma lua_readline_begin_run (w : World) :
  lua_readline_begin w = Ok (prompt_of w, sigint w) (after_begin w).
Proof.
  unfold lua_readline_begin.
  erewrite bind_Ok by apply lua_tolstring_1.
  erewrite bind_Ok by apply lua_type_2.
  rewrite prompt_world_stack_1.
  rewrite (bind_Ok _ _ _ true _) by reflexivity.
  unfold lua_pushlightuserdata. erewrite bind_Ok by reflexivity.
  unfold after_begin, generator_of, source_world.
  assert (Hp : stack (prompt_world w) !! 1%nat = stack w !! 1%nat)
    by apply prompt_world_stack_1.
  assert (Hn : next_closure (prompt_world w) = next_closure w).
  { unfold prompt_world. destruct (stack w !! 0%nat) as [[]|]; reflexivity. }
  assert (Hf : forall A (f : World -> A),
             (forall s w0, f (set_stack s w0) = f w0) -> f (prompt_world w) = f w).
  { intros A f Hfs. unfold prompt_world.
    destruct (stack w !! 0%nat) as [[]|]; try reflexivity. apply Hfs. }
  destruct (stack w !! 1%nat) as [v|] eqn:Hv.
  - destruct v as [|b|p|n|s|t|f|u|t']; simpl;
      try (erewrite bind_Ok by reflexivity;
           erewrite bind_Ok by (eapply lua_settable_reg; reflexivity);
           unfold modify, signal, get, log, bind, ret; simpl;
           rewrite (Hf _ sigint), (Hf _ trace), (Hf _ registry) by reflexivity;
           destruct (prompt_world w); reflexivity).
    + (* a table *)
      rewrite bind_assoc.
      erewrite bind_Ok by (eapply lua_pushvalue_2; exact Hp).
      erewrite bind_Ok by (eapply lua_pushcclosure_1; simpl; reflexivity).
      erewrite bind_Ok by (eapply lua_settable_reg; simpl; reflexivity).
      unfold modify, signal, get, log, bind, ret. simpl.
      rewrite (Hf _ sigint), (Hf _ trace), (Hf _ registry), (Hf _ closures), Hn
        by reflexivity.
      destruct (prompt_world w); reflexivity.
    + (* a function *)
      erewrite bind_Ok by (eapply lua_pushvalue_2; exact Hp).
      erewrite bind_Ok by (eapply lua_settable_reg; simpl; reflexivity).
      unfold modify, signal, get, log, bind, ret. simpl.
      rewrite (Hf _ sigint), (Hf _ trace), (Hf _ registry) by reflexivity.
      destruct (prompt_world w); reflexivity.
  - simpl.
    erewrite bind_Ok by reflexivity.
    erewrite bind_Ok by (eapply lua_settable_reg; reflexivity).
    unfold modify, signal, get, log, bind, ret; simpl.
    rewrite (Hf _ sigint), (Hf _ trace), (Hf _ registry) by reflexivity.
    destruct (prompt_world w); reflexivity.
Qed.

(** ** What a completion request leaves alone *)

Lemma stable_refl (w : World) : stable w w.
Proof.
  repeat split. exists []. rewrite app_nil_r. split; [reflexivity | constructor].
Qed.

Lemma stable_trans (w1 w2 w3 : World) : stable w1 w2 -> stable w2 w3 -> stable w1 w3.
Proof.
  intros (A1 & A2 & A3 & A4 & A5 & A6 & A7 & A8 & ev1 & T1 & F1)
         (B1 & B2 & B3 & B4 & B5 & B6 & B7 & B8 & ev2 & T2 & F2).
  repeat split; try congruence.
  exists (ev1 ++ ev2). split.
  - rewrite T2, T1, app_assoc. reflexivity.
  - apply Forall_app. split; assumption.
Qed.

(** Changes that do not reach those fields. *)
Lemma stable_quiet (w w' : World) :
  sigint w' = sigint w -> rl_instream w' = rl_instream w -> feof w' = feof w ->
  globalL w' = globalL w ->
  rl_completion_entry_function w' = rl_completion_entry_function w ->
  rl_readline_name w' = rl_readline_name w ->
  malloc_ok w' = malloc_ok w -> registry w' = registry w -> trace w' = trace w ->
  stable w w'.
Proof.
  intros. repeat split; try congruence.
  exists []. rewrite app_nil_r. split; [assumption | constructor].
Qed.

Lemma preserves_ret {A} (a : A) : preserves (ret a).
Proof. intros w b w' Hr. inversion Hr; subst. apply stable_refl. Qed.

Lemma preserves_bind {A B} (m : M A) (f : A -> M B) :
  preserves m -> (forall a, preserves (f a)) -> preserves (bind m f).
Proof.
  intros Hm Hf w b w' Hr. apply bind_inv in Hr as (a & w1 & H1 & H2).
  eapply stable_trans; [eapply Hm, H1 | eapply Hf, H2].
Qed.

Ltac quiet :=
  let w := fresh "w" in let a := fresh "a" in let w' := fresh "w'" in
  let Hr := fresh "Hr" in
  intros w a w' Hr; cbv beta delta [modify get ret] in Hr;
  repeat case_match; simplify_eq;
  first [apply stable_refl | apply stable_quiet; reflexivity].

Lemma preserves_get {A} (f : World -> A) : preserves (get f).
Proof. quiet. Qed.

Lemma preserves_push v : preserves (push v).
Proof. unfold push. quiet. Qed.

Lemma preserves_undefined {A} u : preserves (undefined_behaviour (A:=A) u).
Proof. intros w a w' Hr. discriminate. Qed.

Lemma preserves_lua_error {A} e : preserves (lua_error (A:=A) e).
Proof. intros w a w' Hr. discriminate. Qed.

Lemma preserves_out_of_fuel {A} : preserves (out_of_fuel (A:=A)).
Proof. intros w a w' Hr. discriminate. Qed.

Lemma preserves_luaL_error {A} msg : preserves (luaL_error (A:=A) msg).
Proof. intros w a w' Hr. discriminate. Qed.

Lemma preserves_lua_pop n : preserves (lua_pop n).
Proof. unfold lua_pop. quiet. Qed.

Lemma write_index_stable idx v (w : World) : stable w (write_index idx v w).
Proof.
  unfold write_index. repeat case_match;
    first [apply stable_refl | apply stable_quiet; reflexivity].
Qed.

Lemma preserves_lua_tolstring idx : preserves (lua_tolstring idx).
Proof.
  intros w a w' Hr. unfold lua_tolstring in Hr.
  repeat case_match; simplify_eq; first [apply stable_refl | apply write_index_stable].
Qed.

Lemma preserves_lua_pushcclosure c n : preserves (lua_pushcclosure c n).
Proof.
  destruct n; [apply preserves_push|]. unfold lua_pushcclosure. quiet.
Qed.

Lemma preserves_lua_insert idx : preserves (lua_insert idx).
Proof. unfold lua_insert. quiet. Qed.

Lemma preserves_lua_replace idx : preserves (lua_replace idx).
Proof.
  intros w a w' Hr. unfold lua_replace in Hr. repeat case_match; simplify_eq.
  eapply stable_trans; [apply (write_index_stable idx)|].
  apply stable_quiet; reflexivity.
Qed.

Lemma preserves_lua_rawgeti idx n : preserves (lua_rawgeti idx n).
Proof. unfold lua_rawgeti, push. quiet. Qed.

Lemma preserves_malloc n : preserves (malloc n).
Proof. unfold malloc. quiet. Qed.

Lemma preserves_free p : preserves (free p).
Proof. unfold free, undefined_behaviour. destruct p; quiet. Qed.

Lemma preserves_store p s : preserves (store p s).
Proof. unfold store, undefined_behaviour. destruct p; quiet. Qed.

Lemma preserves_deref p : preserves (deref p).
Proof. unfold deref, undefined_behaviour. destruct p; quiet. Qed.

Lemma preserves_call_host h args : preserves (call_host h args).
Proof.
  intros w a w' Hr. unfold call_host in Hr. case_match; simplify_eq.
  repeat split. exists [EvHostCall h args]. split; [reflexivity|].
  constructor; [reflexivity | constructor].
Qed.

Lemma preserves_in_frame slf args body : preserves body -> preserves (in_frame slf args body).
Proof.
  intros Hb w a w' Hr. unfold in_frame in Hr.
  destruct (body (set_self slf (set_stack args w))) as [k w1| | |] eqn:Hk; simplify_eq.
  apply Hb in Hk.
  destruct Hk as (A1 & A2 & A3 & A4 & A5 & A6 & A7 & A8 & ev1 & T1 & F1).
  repeat split; try assumption. exists ev1. split; assumption.
Qed.

Lemma preserves_lua_call call nargs nresults :
  (forall f args, preserves (call f args)) -> preserves (lua_call call nargs nresults).
Proof.
  intros Hc w a w' Hr. unfold lua_call in Hr.
  repeat case_match; simplify_eq.
  apply bind_inv in Hr as (vs & w1 & Hcall & Hpush).
  apply Hc in Hcall. unfold modify in Hpush. simplify_eq.
  destruct Hcall as (A1 & A2 & A3 & A4 & A5 & A6 & A7 & A8 & ev1 & T1 & F1).
  repeat split; try assumption. exists ev1. split; assumption.
Qed.

Create HintDb stable.
#[local] Hint Resolve preserves_ret preserves_get preserves_push preserves_undefined
  preserves_lua_error preserves_luaL_error preserves_out_of_fuel preserves_lua_pop preserves_lua_tolstring
  preserves_lua_pushcclosure preserves_lua_insert preserves_lua_replace
  preserves_lua_rawgeti preserves_malloc preserves_free preserves_store
  preserves_deref preserves_call_host : stable.

Ltac pres :=
  repeat first
    [ solve [auto with stable]
    | apply preserves_bind; [|intros ?]
    | match goal with
      | |- preserves (if ?b then _ else _) => destruct b
      | |- preserves (match ?x with _ => _ end) => destruct x
      end ].

Lemma preserves_lua_type idx : preserves (lua_type idx).
Proof. unfold lua_type. pres. Qed.

Lemma preserves_lua_isnil idx : preserves (lua_isnil idx).
Proof. unfold lua_isnil. pres. apply preserves_lua_type. Qed.

Lemma preserves_lua_pushvalue idx : preserves (lua_pushvalue idx).
Proof. unfold lua_pushvalue. pres. Qed.

Lemma preserves_lua_getglobal name : preserves (lua_getglobal name).
Proof. unfold lua_getglobal. pres. Qed.

Lemma preserves_luaL_checktype idx t : preserves (luaL_checktype idx t).
Proof. unfold luaL_checktype, luaL_error. pres. apply preserves_lua_type. Qed.

Lemma preserves_luaL_checkint idx : preserves (luaL_checkint idx).
Proof. unfold luaL_checkint, luaL_error. pres. Qed.

Lemma preserves_lua_pushstring s : preserves (lua_pushstring s).
Proof. unfold lua_pushstring, lua_pushnil. pres. Qed.

Lemma preserves_strncpy p s n : preserves (strncpy p s n).
Proof. unfold strncpy. pres. Qed.

#[local] Hint Resolve preserves_lua_type preserves_lua_isnil preserves_lua_pushvalue
  preserves_lua_getglobal preserves_luaL_checktype preserves_luaL_checkint
  preserves_lua_pushstring preserves_strncpy preserves_lua_call : stable.

Lemma preserves_iterstep_loop call n pref len :
  (forall f args, preserves (call f args)) ->
  preserves (lua_iterstep_loop call n pref len).
Proof.
  intros Hc. induction n as [|n IH]; [apply preserves_out_of_fuel|].
  rewrite lua_iterstep_loop_S. pres.
Qed.

Lemma preserves_cfunction_body call n c :
  (forall f args, preserves (call f args)) ->
  preserves (cfunction_body call n c).
Proof.
  intros Hc. pose proof (preserves_iterstep_loop call n) as Hl.
  destruct c; unfold cfunction_body, lua_returnnil, lua_niliterator, lua_iterstep,
    lua_ipairsiterator, luaB_ipairs, ipairsaux, lua_pushcfunction, lua_pushinteger,
    lua_checkstack; pres.
Qed.

Lemma preserves_lua_callv fuel : forall f args, preserves (lua_callv fuel f args).
Proof.
  induction fuel as [|n IH]; intros f args; [apply preserves_out_of_fuel|].
  rewrite lua_callv_S.
  destruct f as [| | | | | |[c|r|h]| |]; try apply preserves_lua_error.
  - apply preserves_in_frame, preserves_cfunction_body, IH.
  - intros w a w' Hr. destruct (closures w !! r) as [cl|]; [|discriminate].
    eapply preserves_in_frame; [|exact Hr]. apply preserves_cfunction_body, IH.
  - apply preserves_call_host.
Qed.

Lemma rawset_iterator_generator v (r : gmap nat value) :
  rawset REGISTRY_KEY_ITERATOR v r !! REGISTRY_KEY_GENERATOR
  = r !! REGISTRY_KEY_GENERATOR.
Proof.
  unfold rawset, REGISTRY_KEY_ITERATOR, REGISTRY_KEY_GENERATOR.
  destruct v; first [apply lookup_delete_ne; lia | apply lookup_insert_ne; lia].
Qed.

Lemma preserves_lua_initgenerator fuel text :
  preserves (lua_initgenerator (lua_callv fuel) text).
Proof.
  intros w a w' Hr.
  rewrite lua_initgenerator_eq in Hr by apply lua_callv_keeps_frame.
  apply bind_inv in Hr as (vs & w1 & Hcall & Hset).
  apply preserves_lua_callv in Hcall. unfold modify in Hset. simplify_eq.
  destruct Hcall as (A1 & A2 & A3 & A4 & A5 & A6 & A7 & A8 & ev1 & T1 & F1).
  repeat split; try assumption.
  - simpl. rewrite rawset_iterator_generator. exact A8.
  - exists ev1. split; assumption.
Qed.

Lemma preserves_lua_stepgenerator fuel :
  preserves (lua_stepgenerator (lua_callv fuel)).
Proof.
  intros w a w' Hr.
  rewrite lua_stepgenerator_eq in Hr by apply lua_callv_keeps_frame.
  apply bind_inv in Hr as (vs & w1 & Hcall & Hrest).
  apply preserves_lua_callv in Hcall.
  eapply stable_trans; [exact Hcall|].
  assert (Hp : preserves
                 (match hd VNil vs with
                  | VNil => ret NULL
                  | v =>
                      push v ;;
                      str <- lua_tolstring (-1) ;;
                      newstr <- malloc (len_of str + 1) ;;
                      strncpy newstr str (len_of str + 1) ;;
                      ret newstr
                  end))
    by (destruct (hd VNil vs); pres).
  eapply Hp, Hrest.
Qed.

Lemma preserves_gen_function fuel text state :
  preserves (gen_function (lua_callv fuel) text state).
Proof.
  pose proof (preserves_lua_initgenerator fuel text).
  pose proof (preserves_lua_stepgenerator fuel).
  unfold gen_function. pres.
Qed.

Lemma preserves_rl_generation fuel n : forall text state,
  preserves (rl_generation (lua_callv fuel) n text state).
Proof.
  induction n as [|n IH]; intros text state; [apply preserves_out_of_fuel|].
  rewrite rl_generation_S.
  pose proof (preserves_gen_function fuel text state).
  pres.
Qed.

Lemma preserves_run_completions fuel texts : preserves (run_completions fuel texts).
Proof.
  induction texts as [|t ts IH]; simpl; [apply preserves_ret|].
  unfold run_generation. pose proof (preserves_rl_generation fuel fuel t 0). pres.
Qed.

(** ** The read as a whole *)

Ltac begin_field :=
  unfold after_begin, source_world, prompt_world; repeat case_match; reflexivity.

Lemma after_begin_feof (w : World) : feof (after_begin w) = feof w.
Proof. begin_field. Qed.
Lemma after_begin_rl_instream (w : World) : rl_instream (after_begin w) = rl_instream w.
Proof. begin_field. Qed.
Lemma after_begin_host (w : World) : host (after_begin w) = host w.
Proof. begin_field. Qed.
Lemma after_begin_malloc_ok (w : World) : malloc_ok (after_begin w) = malloc_ok w.
Proof. begin_field. Qed.
Lemma after_begin_tables (w : World) : tables (after_begin w) = tables w.
Proof. begin_field. Qed.
Lemma after_begin_globals (w : World) : globals (after_begin w) = globals w.
Proof. begin_field. Qed.
Lemma after_begin_trace (w : World) :
  trace (after_begin w) = trace w ++ [EvSignal SIGINT (SIG_FN readline_sigint_h)].
Proof. begin_field. Qed.
Lemma after_begin_sigint (w : World) : sigint (after_begin w) = SIG_FN readline_sigint_h.
Proof. reflexivity. Qed.
Lemma after_begin_registry (w : World) :
  registry (after_begin w) = <[REGISTRY_KEY_GENERATOR := generator_of w]> (registry w).
Proof. begin_field. Qed.
Lemma after_begin_globalL (w : World) : globalL (after_begin w) = true.
Proof. reflexivity. Qed.
Lemma after_begin_entry (w : World) :
  rl_completion_entry_function (after_begin w) = Some gen_function_p.
Proof. reflexivity. Qed.

Lemma begin_completions_inv fuel texts (w : World) cs w2 :
  (lua_readline_begin ;; run_completions fuel texts) w = Ok cs w2 ->
  run_completions fuel texts (after_begin w) = Ok cs w2 /\ stable (after_begin w) w2.
Proof.
  intros Hr. apply bind_inv in Hr as (b & w1 & Hb & Hc).
  rewrite lua_readline_begin_run in Hb. simplify_eq.
  split; [exact Hc | eapply preserves_run_completions, Hc].
Qed.

Lemma lua_readline_to_read fuel script (w : World) cs w2 :
  (lua_readline_begin ;; run_completions fuel (rl_completions script)) w = Ok cs w2 ->
  lua_readline fuel script w
  = (r <- (match rl_ending script with
           | RlLine s => p <- rl_line s ;; ret (Returned p)
           | RlNull => ret (Returned NULL)
           | RlSigint =>
               d <- get sigint ;;
               match d with
               | SIG_FN readline_sigint_h => ret (Jumped (readline_sigint SIGINT))
               | _ => undefined_behaviour NotModelled
               end
           end) ;;
     match r with
     | Jumped sig => lua_readline_interrupted fuel sig (sigint w)
     | Returned line =>
         signal SIGINT (sigint w) ;;
         eof <- (match line with
                 | NULL =>
                     fd <- get rl_instream ;;
                     get (fun w => feof w (default stdin fd))
                 | _ => ret false
                 end) ;;
         if eof : bool then ret 0%nat
         else
           text <- (match line with
                    | NULL => ret None
                    | _ => s <- deref line ;; ret (Some s)
                    end) ;;
           lua_pushstring text ;;
           free line ;;
           ret 1%nat
     end) w2.
Proof.
  intros Hr. destruct (begin_completions_inv _ _ _ _ _ Hr) as [Hc _].
  unfold lua_readline. erewrite bind_Ok by apply lua_readline_begin_run.
  cbn [fst snd]. unfold readline. rewrite bind_assoc.
  erewrite bind_Ok by exact Hc. reflexivity.
Qed.

Lemma deref_heap a s (w : World) :
  heap w !! a = Some s -> deref (Heap a) w = Ok s w.
Proof. intros Hh. unfold deref. rewrite Hh. reflexivity. Qed.

Lemma free_heap a s (w : World) :
  heap w !! a = Some s ->
  free (Heap a) w = Ok tt (set_heap (delete a (heap w)) (nalloc w) w).
Proof. intros Hh. unfold free. rewrite Hh. reflexivity. Qed.

Lemma lua_readline_line fuel script (w : World) cs w2 s :
  rl_ending script = RlLine s ->
  (lua_readline_begin ;; run_completions fuel (rl_completions script)) w = Ok cs w2 ->
  lua_readline fuel script w = Ok 1%nat (line_world s (sigint w) w2).
Proof.
  intros He Hr. rewrite (lua_readline_to_read _ _ _ _ _ Hr), He.
  rewrite bind_assoc. unfold rl_line at 1. unfold bind at 1.
  step. step. step.
  rewrite bind_assoc.
  erewrite bind_Ok by (apply deref_heap; simpl; apply lookup_insert_eq).
  step. step.
  erewrite bind_Ok by (eapply free_heap; simpl; apply lookup_insert_eq).
  simpl. rewrite delete_insert_eq, c_str_idem. reflexivity.
Qed.

Lemma lua_readline_null fuel script (w : World) cs w2 :
  rl_ending script = RlNull ->
  (lua_readline_begin ;; run_completions fuel (rl_completions script)) w = Ok cs w2 ->
  lua_readline fuel script w
  = if feof w (default stdin (rl_instream w))
    then Ok 0%nat (returned_world (sigint w) w2)
    else Ok 1%nat (set_stack (stack w2 ++ [VNil]) (returned_world (sigint w) w2)).
Proof.
  intros He Hr. rewrite (lua_readline_to_read _ _ _ _ _ Hr), He.
  destruct (begin_completions_inv _ _ _ _ _ Hr)
    as [_ (A1 & A2 & A3 & A4 & A5 & A6 & A7 & A8 & ev1 & T1 & F1)].
  step. step. step. rewrite A2, A3, after_begin_feof, after_begin_rl_instream.
  destruct (feof w (default stdin (rl_instream w))); reflexivity.
Qed.

Lemma lua_readline_sigint fuel script (w : World) cs w2 :
  rl_ending script = RlSigint ->
  sigint w <> SIG_FN readline_sigint_h ->
  (lua_readline_begin ;; run_completions fuel (rl_completions script)) w = Ok cs w2 ->
  lua_readline fuel script w = Ok 0%nat (interrupted_world (sigint w) w2).
Proof.
  intros He Hold Hr. rewrite (lua_readline_to_read _ _ _ _ _ Hr), He.
  destruct (begin_completions_inv _ _ _ _ _ Hr)
    as [_ (A1 & A2 & A3 & A4 & A5 & A6 & A7 & A8 & ev1 & T1 & F1)].
  rewrite bind_assoc. unfold get at 1. unfold bind at 1. rewrite A1. simpl.
  unfold ret at 1. unfold bind at 1.
  change (readline_sigint SIGINT) with SIGINT.
  unfold interrupted_world.
  destruct fuel as [|n]; simpl;
    (destruct (sigint w) as [| | |[|h]]; [| | |contradiction|]);
    unfold rl_free_line_state, rl_cleanup_after_signal, call_handler, signal, log,
      modify, get, bind, ret; simpl; rewrite <- ?app_assoc; reflexivity.
Qed.

(** ** Generations, by kind of source *)

Lemma events_since_app (w w' : World) ev :
  trace w' = trace w ++ ev -> events_since w w' = ev.
Proof. intros Ht. unfold events_since. rewrite Ht. apply drop_app_length. Qed.



Lemma generation_absent fuel text (w : World) :
  registry w !! REGISTRY_KEY_GENERATOR = Some (VFun (CFun CF_niliterator)) ->
  rl_completion_entry_function w = Some gen_function_p -> globalL w = true ->
  (2 <= fuel)%nat ->
  run_generation fuel text w
  = Ok [] (set_registry
             (<[REGISTRY_KEY_ITERATOR := VFun (CFun CF_returnnil)]> (registry w)) w).
Proof.
  intros Hg He Hl Hf. destruct fuel as [|[|k]]; try lia.
  unfold run_generation. rewrite rl_generation_first by assumption.
  unfold bind at 1. rewrite lua_initgenerator_eq by apply lua_callv_keeps_frame.
  rewrite Hg. simpl default.
  erewrite bind_Ok by apply callv_niliterator.
  unfold modify. simpl rawset.
  eapply (gen_tail_nil _ _ _ _ _ []); [apply lua_callv_keeps_frame| |reflexivity].
  simpl. rewrite lookup_insert_eq. simpl. apply callv_returnnil.
Qed.

Lemma completions_absent fuel texts : forall (w : World),
  registry w !! REGISTRY_KEY_GENERATOR = Some (VFun (CFun CF_niliterator)) ->
  rl_completion_entry_function w = Some gen_function_p -> globalL w = true ->
  (2 <= fuel)%nat ->
  exists w',
    run_completions fuel texts w = Ok (map (fun _ => []) texts) w'
    /\ trace w' = trace w
    /\ registry w' !! REGISTRY_KEY_GENERATOR = Some (VFun (CFun CF_niliterator)).
Proof.
  induction texts as [|t ts IH]; intros w Hg He Hl Hf.
  - exists w. repeat split. exact Hg.
  - simpl. erewrite bind_Ok by (apply generation_absent; assumption).
    destruct (IH (set_registry
                    (<[REGISTRY_KEY_ITERATOR := VFun (CFun CF_returnnil)]> (registry w)) w))
      as (w' & Hrun & Htr & Hreg); try assumption.
    { simpl. rewrite lookup_insert_ne by (unfold REGISTRY_KEY_ITERATOR,
        REGISTRY_KEY_GENERATOR; lia). exact Hg. }
    exists w'. split; [|split; assumption].
    rewrite (bind_Ok _ _ _ _ _ Hrun). reflexivity.
Qed.

Lemma generator_of_absent (w : World) :
  match stack w !! 1%nat with
  | Some v => ttype v <> LUA_TFUNCTION /\ ttype v <> LUA_TTABLE
  | None => True
  end ->
  generator_of w = VFun (CFun CF_niliterator).
Proof.
  unfold generator_of. destruct (stack w !! 1%nat) as [[]|]; try reflexivity;
    intros [Hf Ht]; exfalso; first [apply Hf; reflexivity | apply Ht; reflexivity].
Qed.

(** C6.  A generation begun with an absent completion source (no second
    argument, or nil) signals exhaustion at the first request for a
    candidate, and no host function is called: the only event of the
    prologue and the generation is the installation of the signal
    handler. *)
Theorem absent_source_generation (w : World) (text : string) (fuel : nat) :
  stack w !! 1%nat = None \/ stack w !! 1%nat = Some VNil ->
  (2 <= fuel)%nat ->
  exists w',
    (lua_readline_begin ;; run_generation fuel text) w = Ok [] w'
    /\ events_since w w' = [EvSignal SIGINT (SIG_FN readline_sigint_h)]
    /\ count_event is_host_call (events_since w w') = 0%nat.
Proof.
  intros Habs Hf.
  assert (Hgen : generator_of w = VFun (CFun CF_niliterator)).
  { apply generator_of_absent. destruct Habs as [-> | ->]; [exact I|].
    split; discriminate. }
  assert (Hreg : registry (after_begin w) !! REGISTRY_KEY_GENERATOR
                 = Some (VFun (CFun CF_niliterator))).
  { rewrite after_begin_registry, Hgen. apply lookup_insert_eq. }
  pose proof (after_begin_entry w) as He.
  pose proof (after_begin_globalL w) as Hgl.
  pose proof (after_begin_trace w) as Htr.
  pose proof (lua_readline_begin_run w) as Hb.
  revert Hreg He Hgl Htr Hb. generalize (after_begin w). intros w1 Hreg He Hgl Htr Hb.
  eexists. split; [|split].
  - erewrite bind_Ok by exact Hb.
    apply generation_absent; assumption.
  - apply events_since_app. simpl. exact Htr.
  - erewrite events_since_app by (simpl; exact Htr). reflexivity.
Qed.

(** C10.  A second argument that is neither a function nor a table (nil, a
    string, a number, a boolean, ...) puts the empty generator in the
    registry, the one an absent source gets, and every generation of the
    read signals exhaustion at its first request, without any call of a host
    function. *)
Theorem other_source_is_absent (w : World) (v : value) (texts : list string)
    (fuel : nat) :
  stack w !! 1%nat = Some v ->
  ttype v <> LUA_TFUNCTION ->
  ttype v <> LUA_TTABLE ->
  (2 <= fuel)%nat ->
  exists w1 w',
    lua_readline_begin w = Ok (prompt_of w, sigint w) w1
    /\ registry w1 !! REGISTRY_KEY_GENERATOR = Some (VFun (CFun CF_niliterator))
    /\ run_completions fuel texts w1 = Ok (map (fun _ => []) texts) w'
    /\ registry w' !! REGISTRY_KEY_GENERATOR = Some (VFun (CFun CF_niliterator))
    /\ count_event is_host_call (events_since w w') = 0%nat.
Proof.
  intros Hv Hnf Hnt Hf.
  assert (Hgen : generator_of w = VFun (CFun CF_niliterator)).
  { apply generator_of_absent. rewrite Hv. split; assumption. }
  assert (Hreg : registry (after_begin w) !! REGISTRY_KEY_GENERATOR
                 = Some (VFun (CFun CF_niliterator))).
  { rewrite after_begin_registry, Hgen. apply lookup_insert_eq. }
  destruct (completions_absent fuel texts (after_begin w) Hreg eq_refl eq_refl Hf)
    as (w' & Hrun & Htr & Hreg').
  exists (after_begin w), w'. repeat split; try assumption.
  - apply lua_readline_begin_run.
  - erewrite events_since_app by (rewrite Htr; apply after_begin_trace). reflexivity.
Qed.


Lemma callv_host_ret n h args (w : World) vs hs :
  host_call h args (host w) = (HRet vs, hs) ->
  lua_callv (S n) (VFun (HostFun h)) args w
  = Ok vs (set_trace (trace w ++ [EvHostCall h args]) (set_host hs w)).
Proof.
  intros Hh. rewrite lua_callv_HostFun. unfold call_host. rewrite Hh. reflexivity.
Qed.


(** ** The interruptible read *)



Lemma signal_calls_app (l1 l2 : list event) :
  signal_calls (l1 ++ l2) = signal_calls l1 ++ signal_calls l2.
Proof. unfold signal_calls. apply flat_map_app. Qed.

Lemma signal_calls_host (ev : list event) :
  Forall (fun e => is_host_call e = true) ev -> signal_calls ev = [].
Proof.
  intros Hev. induction Hev as [|e ev He _ IH]; [reflexivity|].
  destruct e; try discriminate. exact IH.
Qed.

Lemma first_result_0 (w : World) : first_result 0 w = VNil.
Proof.
  unfold first_result, results, lastn. rewrite Nat.sub_0_r, drop_all. reflexivity.
Qed.

Lemma results_top st v (w : World) :
  stack w = st ++ [v] -> results 1 w = [v].
Proof.
  intros Hs. unfold results, lastn. rewrite Hs, length_app. simpl.
  replace (length st + 1 - 1)%nat with (length st) by lia.
  apply drop_app_length.
Qed.

Lemma interrupted_world_trace old (w2 : World) :
  trace (interrupted_world old w2) = trace w2 ++ interrupt_events old.
Proof.
  unfold interrupted_world, interrupt_events.
  destruct old as [| | |[|h]]; simpl; rewrite <- ?app_assoc; reflexivity.
Qed.


(** C5.  When the blocking read returns its null sentinel, the caller
    receives nil whether or not the input stream reports end-of-stream: at
    end-of-stream [lua_readline] returns no value, otherwise it pushes the
    null line, which is nil, and returns that one value. *)
Theorem null_sentinel_read (fuel : nat) (script : rl_script) (w : World)
    (cs : list (list string)) (w2 : World) :
  rl_ending script = RlNull ->
  (lua_readline_begin ;; run_completions fuel (rl_completions script)) w = Ok cs w2 ->
  exists n w3,
    lua_readline fuel script w = Ok n w3
    /\ first_result n w3 = VNil
    /\ (feof w (default stdin (rl_instream w)) = true -> n = 0%nat)
    /\ (feof w (default stdin (rl_instream w)) = false ->
        n = 1%nat /\ results n w3 = [VNil]).
Proof.
  intros He Hr. pose proof (lua_readline_null _ _ _ _ _ He Hr) as Hrun.
  destruct (feof w (default stdin (rl_instream w))).
  - eexists _, _. split; [exact Hrun|]. split; [apply first_result_0|].
    split; [reflexivity | discriminate].
  - eexists _, _. split; [exact Hrun|].
    assert (Hres : results 1 (set_stack (stack w2 ++ [VNil])
                                (returned_world (sigint w) w2)) = [VNil])
      by (eapply results_top; reflexivity).
    split; [unfold first_result; rewrite Hres; reflexivity|].
    split; [discriminate|]. intros _. split; [reflexivity | exact Hres].
Qed.

(** C2, as the code has it.  On every path on which [lua_readline]
    returns (a line, the null sentinel at end-of-stream or not, an
    interrupt), [signal] is called twice during the read: first with the
    handler of the binding, last with the disposition found on entry.  On
    return the disposition is that one, unless the read was interrupted and
    the old handler, called after the restoration, changed it itself.
    Nothing is said here of a read left by an error of a completion
    callable. *)
Theorem disposition_restored_on_return (fuel : nat) (script : rl_script) (w : World)
    (cs : list (list string)) (w2 : World) :
  (rl_ending script = RlSigint -> sigint w <> SIG_FN readline_sigint_h) ->
  (lua_readline_begin ;; run_completions fuel (rl_completions script)) w = Ok cs w2 ->
  exists n w3,
    lua_readline fuel script w = Ok n w3
    /\ signal_calls (events_since w w3) = [SIG_FN readline_sigint_h; sigint w]
    /\ sigint w3
       = match rl_ending script, sigint w with
         | RlSigint, SIG_FN (foreign_handler h) =>
             snd (handler_run h SIGINT (host w2, sigint w))
         | _, d => d
         end.
Proof.
  intros Hold Hr.
  destruct (begin_completions_inv _ _ _ _ _ Hr)
    as [_ (A1 & A2 & A3 & A4 & A5 & A6 & A7 & A8 & ev & T & F)].
  assert (Hsig : forall tail,
             signal_calls ([EvSignal SIGINT (SIG_FN readline_sigint_h)] ++ ev ++ tail)
             = SIG_FN readline_sigint_h :: signal_calls tail).
  { intros tail. rewrite !signal_calls_app, (signal_calls_host ev F). reflexivity. }
  destruct (rl_ending script) as [s| |] eqn:He.
  - eexists _, _. split; [apply (lua_readline_line _ _ _ _ _ s He Hr)|]. split.
    + rewrite (events_since_app w _
                 ([EvSignal SIGINT (SIG_FN readline_sigint_h)] ++ ev
                  ++ [EvSignal SIGINT (sigint w)])).
      * rewrite Hsig. reflexivity.
      * simpl. rewrite T, after_begin_trace, <- !app_assoc. reflexivity.
    + destruct (sigint w) as [| | |[|h]]; reflexivity.
  - pose proof (lua_readline_null _ _ _ _ _ He Hr) as Hrun.
    destruct (feof w (default stdin (rl_instream w)));
      (eexists _, _; split; [exact Hrun|]; split;
       [ rewrite (events_since_app w _
                    ([EvSignal SIGINT (SIG_FN readline_sigint_h)] ++ ev
                     ++ [EvSignal SIGINT (sigint w)]));
         [ rewrite Hsig; reflexivity
         | simpl; rewrite T, after_begin_trace, <- !app_assoc; reflexivity ]
       | destruct (sigint w) as [| | |[|h]]; reflexivity ]).
  - specialize (Hold eq_refl).
    eexists _, _. split; [apply (lua_readline_sigint _ _ _ _ _ He Hold Hr)|]. split.
    + rewrite (events_since_app w _
                 ([EvSignal SIGINT (SIG_FN readline_sigint_h)] ++ ev
                  ++ interrupt_events (sigint w))).
      * rewrite Hsig. unfold interrupt_events.
        destruct (sigint w) as [| | |[|h]]; reflexivity.
      * rewrite interrupted_world_trace, T, after_begin_trace, <- !app_assoc.
        reflexivity.
    + unfold interrupted_world.
      destruct (sigint w) as [| | |[|h]]; reflexivity.
Qed.



(** ** The name accessors *)

Lemma free_name_run (w : World) :
  name_slot_owned w ->
  (match rl_readline_name w with
   | NULL => ret tt
   | _ => free (rl_readline_name w)
   end) w
  = Ok tt (set_heap (release_name w) (nalloc w) w).
Proof.
  unfold release_name.
  intros [Hn | (a & x & Hn & Hx)]; rewrite Hn.
  - unfold ret. f_equal. destruct w; reflexivity.
  - apply (free_heap a x). exact Hx.
Qed.

Lemma lua_setname_run (w : World) (s : string) :
  name_slot_owned w ->
  malloc_ok w (nalloc w) = true ->
  in_frame None [VStr s] lua_setname w
  = Ok [] (set_rl_readline_name (Heap (nalloc w))
             (set_heap (<[nalloc w := c_str s]> (release_name w)) (S (nalloc w)) w)).
Proof.
  intros Hown Hm. erewrite in_frame_Ok.
  2:{ unfold lua_setname. step. step.
      erewrite bind_Ok by (apply (free_name_run (set_self None (set_stack [VStr s] w)));
                           exact Hown).
      unfold clonestr. rewrite bind_assoc.
      unfold malloc at 1. unfold bind at 1. simpl. rewrite Hm.
      rewrite bind_assoc. unfold strlcpy. rewrite Nat.add_1_r.
      rewrite bind_assoc. unfold store at 1. unfold bind at 1. simpl.
      rewrite lookup_insert_eq.
      rewrite take_bytes_all by (unfold strlen; lia).
      step. step. step. reflexivity. }
  simpl. rewrite insert_insert_eq. f_equal; destruct w; reflexivity.
Qed.

Lemma lua_getname_run (w : World) a s :
  rl_readline_name w = Heap a -> heap w !! a = Some s ->
  in_frame None [] lua_getname w = Ok [VStr (c_str s)] w.
Proof.
  intros Hn Hh. erewrite in_frame_Ok.
  2:{ unfold lua_getname. step. rewrite Hn. rewrite bind_assoc.
      erewrite bind_Ok by (apply (deref_heap a s); exact Hh).
      step. unfold lua_pushstring. step. reflexivity. }
  simpl. f_equal; destruct w; reflexivity.
Qed.

(** C8, as the code has it.  From a state in which the name slot is empty
    or holds storage of an earlier [setname], and with memory available:
    [setname(s1)] followed by [getname()] returns [s1] up to its first NUL
    byte, which is [s1] itself when it holds none; a second [setname(s2)]
    releases the storage of the first value, and [getname()] then returns
    [s2], again up to its first NUL byte. *)
Theorem name_set_then_get (w : World) (s1 s2 : string) :
  name_slot_owned w ->
  malloc_ok w (nalloc w) = true ->
  malloc_ok w (S (nalloc w)) = true ->
  exists w1 w2,
    in_frame None [VStr s1] lua_setname w = Ok [] w1
    /\ in_frame None [] lua_getname w1 = Ok [VStr (c_str s1)] w1
    /\ rl_readline_name w1 = Heap (nalloc w)
    /\ heap w1 !! nalloc w = Some (c_str s1)
    /\ in_frame None [VStr s2] lua_setname w1 = Ok [] w2
    /\ heap w2 !! nalloc w = None
    /\ in_frame None [] lua_getname w2 = Ok [VStr (c_str s2)] w2
    /\ (no_nul s1 = true -> c_str s1 = s1)
    /\ (no_nul s2 = true -> c_str s2 = s2).
Proof.
  intros Hown Hm1 Hm2.
  set (w1 := set_rl_readline_name (Heap (nalloc w))
               (set_heap (<[nalloc w := c_str s1]> (release_name w)) (S (nalloc w)) w)).
  assert (Hh1 : heap w1 !! nalloc w = Some (c_str s1)) by apply lookup_insert_eq.
  assert (Hown1 : name_slot_owned w1).
  { right. exists (nalloc w), (c_str s1). split; [reflexivity | exact Hh1]. }
  set (w2 := set_rl_readline_name (Heap (nalloc w1))
               (set_heap (<[nalloc w1 := c_str s2]> (release_name w1)) (S (nalloc w1)) w1)).
  exists w1, w2. repeat split.
  - apply lua_setname_run; assumption.
  - rewrite <- (c_str_idem s1). eapply lua_getname_run; [reflexivity | exact Hh1].
  - exact Hh1.
  - apply lua_setname_run; [exact Hown1 | exact Hm2].
  - unfold w2, release_name. simpl.
    rewrite lookup_insert_ne by lia. apply lookup_delete_eq.
  - rewrite <- (c_str_idem s2).
    eapply lua_getname_run; [reflexivity | apply lookup_insert_eq].
  - apply c_str_no_nul.
  - apply c_str_no_nul.
Qed.

(** C9, what the code does.  When [malloc] fails in [clonestr], [strlcpy]
    writes through the null pointer before [lua_setname] can test the
    result: the behaviour is undefined, and no out-of-memory error is
    raised. *)
Theorem setname_allocation_failure (w : World) (s : string) :
  name_slot_owned w ->
  malloc_ok w (nalloc w) = false ->
  in_frame None [VStr s] lua_setname w = Undefined NullWrite.
Proof.
  intros Hown Hm. unfold in_frame.
  assert (Hrun : lua_setname (set_self None (set_stack [VStr s] w)) = Undefined NullWrite).
  { unfold lua_setname. step. step.
    erewrite bind_Ok by (apply (free_name_run (set_self None (set_stack [VStr s] w)));
                         exact Hown).
    unfold clonestr. rewrite bind_assoc.
    unfold malloc at 1. unfold bind at 1. simpl. rewrite Hm.
    rewrite bind_assoc. unfold strlcpy. rewrite Nat.add_1_r. reflexivity. }
  rewrite Hrun. reflexivity.
Qed.

(** When the name slot holds storage that [malloc] did not hand out, such
    as a default that is a string literal of the library, [lua_setname]
    passes it to [free]. *)
Lemma setname_frees_foreign_storage (w : World) (s d : string) :
  rl_readline_name w = Static d ->
  in_frame None [VStr s] lua_setname w = Undefined BadFree.
Proof.
  intros Hn. unfold in_frame.
  assert (Hrun : lua_setname (set_self None (set_stack [VStr s] w)) = Undefined BadFree).
  { unfold lua_setname. step. step. rewrite Hn. reflexivity. }
  rewrite Hrun. reflexivity.
Qed.

(** ** Further properties of the read *)

Lemma bind_LuaError {A B} (m : M A) (f : A -> M B) w e w' :
  m w = LuaError e w' -> bind m f w = LuaError e w'.
Proof. intros Hm. unfold bind. rewrite Hm. reflexivity. Qed.

Lemma bind_Undefined {A B} (m : M A) (f : A -> M B) w u :
  m w = Undefined u -> bind m f w = Undefined u.
Proof. intros Hm. unfold bind. rewrite Hm. reflexivity. Qed.

(** A read that ends with a line returns one value, the line as
    [lua_pushstring] reads it; the disposition is the one found on entry,
    and the storage of the line has been released. *)
Theorem read_returns_line (fuel : nat) (script : rl_script) (w : World)
    (cs : list (list string)) (w2 : World) (s : string) :
  rl_ending script = RlLine s ->
  (lua_readline_begin ;; run_completions fuel (rl_completions script)) w = Ok cs w2 ->
  exists w3,
    lua_readline fuel script w = Ok 1%nat w3
    /\ results 1 w3 = [VStr (c_str s)]
    /\ sigint w3 = sigint w
    /\ heap w3 !! nalloc w2 = None.
Proof.
  intros He Hr. exists (line_world s (sigint w) w2).
  split; [apply (lua_readline_line _ _ _ _ _ s He Hr)|].
  split; [eapply results_top; reflexivity|].
  split; [reflexivity|]. simpl. apply lookup_delete_eq.
Qed.

Lemma interrupted_by_own_handler (n : nat) : forall (sig : Z) (w : World),
  lua_readline_interrupted n sig (SIG_FN readline_sigint_h) w = OutOfFuel.
Proof.
  induction n as [|n IH]; intros sig w; simpl;
    unfold rl_free_line_state, rl_cleanup_after_signal;
    do 3 (erewrite bind_Ok by reflexivity); [reflexivity | apply IH].
Qed.

(** When the disposition found on entry is the handler of the binding
    itself (a read begun while that handler was still installed), an
    interrupt never leaves [lua_readline]: calling the old handler jumps
    back to [sigsetjmp] and the branch is taken again, whatever the fuel. *)
Theorem interrupt_under_own_handler_never_returns (fuel : nat) (script : rl_script)
    (w : World) (cs : list (list string)) (w2 : World) :
  rl_ending script = RlSigint ->
  sigint w = SIG_FN readline_sigint_h ->
  (lua_readline_begin ;; run_completions fuel (rl_completions script)) w = Ok cs w2 ->
  lua_readline fuel script w = OutOfFuel.
Proof.
  intros He Hold Hr. rewrite (lua_readline_to_read _ _ _ _ _ Hr), He.
  destruct (begin_completions_inv _ _ _ _ _ Hr)
    as [_ (A1 & _)].
  rewrite bind_assoc. unfold get at 1. unfold bind at 1. rewrite A1. simpl.
  unfold ret at 1. unfold bind at 1. rewrite Hold.
  apply interrupted_by_own_handler.
Qed.

(** An error raised by the completion source when it is called on the
    prefix leaves [lua_readline] as that error: nothing catches it, the
    handler of the binding stays installed and the generator stays in the
    registry. *)
Theorem source_error_propagates (fuel : nat) (script : rl_script) (w : World)
    (g : nat) (text : string) (rest : list string) (e : value) (h1 : hstate) :
  stack w !! 1%nat = Some (VFun (HostFun g)) ->
  rl_completions script = text :: rest ->
  host_call g [VStr (c_str text)] (host w) = (HErr e, h1) ->
  (1 <= fuel)%nat ->
  exists w',
    lua_readline fuel script w = LuaError e w'
    /\ sigint w' = SIG_FN readline_sigint_h
    /\ registry w' !! REGISTRY_KEY_GENERATOR = Some (VFun (HostFun g))
    /\ host w' = h1
    /\ events_since w w'
       = [EvSignal SIGINT (SIG_FN readline_sigint_h); EvHostCall g [VStr (c_str text)]].
Proof.
  intros Hv Hc Hg Hf. destruct fuel as [|k]; [lia|].
  set (w1 := after_begin w).
  assert (Hreg : registry w1 !! REGISTRY_KEY_GENERATOR = Some (VFun (HostFun g))).
  { unfold w1. rewrite after_begin_registry. unfold generator_of. rewrite Hv.
    apply lookup_insert_eq. }
  assert (Hh1 : host w1 = host w) by apply after_begin_host.
  assert (Htr1 : trace w1 = trace w ++ [EvSignal SIGINT (SIG_FN readline_sigint_h)])
    by apply after_begin_trace.
  assert (Hsi : sigint w1 = SIG_FN readline_sigint_h) by reflexivity.
  assert (Hgl1 : globalL w1 = true) by reflexivity.
  assert (He1 : rl_completion_entry_function w1 = Some gen_function_p) by reflexivity.
  assert (Hbg : lua_readline_begin w = Ok (prompt_of w, sigint w) w1)
    by apply lua_readline_begin_run.
  clearbody w1. generalize dependent w1. intros w1 Hreg Hh1 Htr1 Hsi Hgl1 He1 Hbg.
  exists (set_trace (trace w1 ++ [EvHostCall g [VStr (c_str text)]]) (set_host h1 w1)).
  split; [|repeat split; try assumption].
  - unfold lua_readline. erewrite bind_Ok by exact Hbg. cbn [fst snd].
    apply bind_LuaError. unfold readline. apply bind_LuaError.
    rewrite Hc. cbn [run_completions]. apply bind_LuaError.
    unfold run_generation. rewrite rl_generation_first by assumption.
    apply bind_LuaError.
    rewrite lua_initgenerator_eq by apply lua_callv_keeps_frame.
    apply bind_LuaError. rewrite Hreg. simpl default.
    rewrite lua_callv_HostFun. unfold call_host. rewrite Hh1, Hg. reflexivity.
  - apply events_since_app. simpl. rewrite Htr1, <- app_assoc. reflexivity.
Qed.

(** ** Further properties of the name accessors *)

(** [getname] changes nothing and returns one value: nil when the name
    pointer is null, else the C string stored there. *)
Theorem getname_is_pure (w : World) (args : list value) :
  in_frame None args lua_getname w
  = match rl_readline_name w with
    | NULL => Ok [VNil] w
    | Static d => Ok [VStr (c_str d)] w
    | Heap a =>
        match heap w !! a with
        | Some s => Ok [VStr (c_str s)] w
        | None => Undefined BadPointer
        end
    end.
Proof.
  assert (Hlast : forall v : value, lastn 1 (args ++ [v]) = [v]).
  { intros v. unfold lastn. rewrite length_app. simpl.
    replace (length args + 1 - 1)%nat with (length args) by lia.
    apply drop_app_length. }
  unfold in_frame, lua_getname, get. unfold bind at 1. simpl.
  destruct (rl_readline_name w) as [|a|d] eqn:Hn.
  - step. rewrite Hlast. f_equal. destruct w; reflexivity.
  - rewrite bind_assoc. unfold deref at 1. unfold bind at 1. simpl.
    destruct (heap w !! a) as [s|]; [|reflexivity].
    step. rewrite Hlast. f_equal. destruct w; reflexivity.
  - rewrite bind_assoc. unfold deref at 1. step.
    rewrite Hlast. f_equal. destruct w; reflexivity.
Qed.

(** [setname] called without a string or a number: [lua_tolstring] gives
    the null pointer and [clonestr] takes its [strlen], after the old name
    has already been released. *)
Theorem setname_without_string (w : World) (args : list value) :
  name_slot_owned w ->
  match args !! 0%nat with
  | Some (VStr _) | Some (VNum _) => False
  | _ => True
  end ->
  in_frame None args lua_setname w = Undefined NullRead.
Proof.
  intros Hown Harg. unfold in_frame.
  assert (Hrun : lua_setname (set_self None (set_stack args w)) = Undefined NullRead).
  { unfold lua_setname.
    assert (Ht : lua_tolstring 1 (set_self None (set_stack args w))
                 = Ok None (set_self None (set_stack args w))).
    { unfold lua_tolstring, read_index. rewrite index2adr_1. simpl.
      destruct (args !! 0%nat) as [[]|]; try reflexivity; contradiction. }
    erewrite bind_Ok by exact Ht. step.
    erewrite bind_Ok by (apply (free_name_run (set_self None (set_stack args w)));
                         exact Hown).
    reflexivity. }
  rewrite Hrun. reflexivity.
Qed.

(** ** Further properties of a generation over a callable source *)

Lemma after_begin_nalloc (w : World) : nalloc (after_begin w) = nalloc w.
Proof. begin_field. Qed.

Lemma after_begin_heap (w : World) : heap (after_begin w) = heap w.
Proof. begin_field. Qed.


Lemma lua_tolstring_top_other S v (w : World) :
  stack w = S ++ [v] ->
  ttype v <> LUA_TSTRING -> ttype v <> LUA_TNUMBER ->
  lua_tolstring (-1) w = Ok None w.
Proof.
  intros Hs H1 H2. unfold lua_tolstring. rewrite (read_index_top S v) by exact Hs.
  destruct v; try reflexivity; contradiction.
Qed.


(** What a callable source and its iterator are asked first: the world in
    which the first candidate arrives. *)
Lemma first_candidate (w : World) (g it : nat) (text : string)
    (rg : list value) (h1 : hstate) (k : nat) :
  stack w !! 1%nat = Some (VFun (HostFun g)) ->
  host_call g [VStr (c_str text)] (host w) = (HRet rg, h1) ->
  hd VNil rg = VFun (HostFun it) ->
  exists w1,
    (lua_readline_begin ;; run_generation (S (S k)) text) w
    = gen_tail (lua_callv (S (S k))) (S k) text 1 w1
    /\ registry w1 !! REGISTRY_KEY_ITERATOR = Some (VFun (HostFun it))
    /\ host w1 = h1
    /\ nalloc w1 = nalloc w /\ malloc_ok w1 = malloc_ok w
    /\ rl_completion_entry_function w1 = Some gen_function_p /\ globalL w1 = true
    /\ trace w1 = trace w ++ [EvSignal SIGINT (SIG_FN readline_sigint_h);
                              EvHostCall g [VStr (c_str text)]].
Proof.
  intros Hv Hg Hrg.
  set (w1 := after_begin w).
  assert (Hreg : registry w1 !! REGISTRY_KEY_GENERATOR = Some (VFun (HostFun g))).
  { unfold w1. rewrite after_begin_registry. unfold generator_of. rewrite Hv.
    apply lookup_insert_eq. }
  assert (Hm1 : malloc_ok w1 = malloc_ok w) by apply after_begin_malloc_ok.
  assert (Hn1 : nalloc w1 = nalloc w) by apply after_begin_nalloc.
  assert (Hh1 : host w1 = host w) by apply after_begin_host.
  assert (Htr1 : trace w1 = trace w ++ [EvSignal SIGINT (SIG_FN readline_sigint_h)])
    by apply after_begin_trace.
  assert (Hgl1 : globalL w1 = true) by reflexivity.
  assert (He1 : rl_completion_entry_function w1 = Some gen_function_p) by reflexivity.
  assert (Hbg : lua_readline_begin w = Ok (prompt_of w, sigint w) w1)
    by apply lua_readline_begin_run.
  clearbody w1. generalize dependent w1. intros w1 Hreg Hm1 Hn1 Hh1 Htr1 Hgl1 He1 Hbg.
  pose proof (lua_callv_keeps_frame (S (S k))) as Hk.
  eexists. split.
  - erewrite bind_Ok by exact Hbg.
    unfold run_generation. rewrite rl_generation_first by assumption.
    unfold bind at 1. rewrite lua_initgenerator_eq by exact Hk.
    rewrite Hreg. simpl default.
    erewrite bind_Ok by (apply callv_host_ret; rewrite Hh1; exact Hg).
    unfold modify. rewrite Hrg. simpl rawset. reflexivity.
  - simpl. repeat split; try assumption.
    + apply lookup_insert_eq.
    + rewrite Htr1, <- app_assoc. reflexivity.
Qed.

(** A candidate that is neither nil, a string nor a number: [lua_tolstring]
    gives the null pointer and [strncpy] is called on it with length 1. *)
Theorem candidate_of_other_type_is_undefined (w : World) (g it : nat)
    (text : string) (rg ra : list value) (h1 h2 : hstate) (fuel : nat) :
  stack w !! 1%nat = Some (VFun (HostFun g)) ->
  host_call g [VStr (c_str text)] (host w) = (HRet rg, h1) ->
  hd VNil rg = VFun (HostFun it) ->
  host_call it [] h1 = (HRet ra, h2) ->
  ttype (hd VNil ra) <> LUA_TNIL ->
  ttype (hd VNil ra) <> LUA_TSTRING ->
  ttype (hd VNil ra) <> LUA_TNUMBER ->
  (2 <= fuel)%nat ->
  exists u, (lua_readline_begin ;; run_generation fuel text) w = Undefined u.
Proof.
  intros Hv Hg Hrg Ha Hnil Hstr Hnum Hf.
  destruct fuel as [|[|k]]; try lia.
  destruct (first_candidate w g it text rg h1 k Hv Hg Hrg)
    as (w1 & -> & Hit & Hh & Hn & Hm & _).
  pose proof (lua_callv_keeps_frame (S (S k))) as Hk.
  exists (if malloc_ok w (nalloc w) then NullRead else NullWrite).
  unfold gen_tail. apply bind_Undefined.
  rewrite (lua_stepgenerator_eq _ w1 Hk). rewrite Hit. simpl default.
  erewrite bind_Ok by (apply callv_host_ret; rewrite Hh; exact Ha).
  assert (Hrun : forall w0 : World, nalloc w0 = nalloc w -> malloc_ok w0 = malloc_ok w ->
            (push (hd VNil ra) ;;
             str <- lua_tolstring (-1) ;;
             newstr <- malloc (len_of str + 1) ;;
             strncpy newstr str (len_of str + 1) ;;
             ret newstr) w0
            = Undefined (if malloc_ok w (nalloc w) then NullRead else NullWrite)).
  { intros w0 Hn0 Hm0.
    erewrite bind_Ok by reflexivity.
    erewrite bind_Ok
      by (eapply lua_tolstring_top_other; [reflexivity|assumption|assumption]).
    unfold malloc at 1. unfold bind at 1. simpl. rewrite Hm0, Hn0.
    destruct (malloc_ok w (nalloc w)); reflexivity. }
  destruct (hd VNil ra) eqn:Hhd; try (apply Hrun; simpl; assumption).
  exfalso. apply Hnil. reflexivity.
Qed.

(** [lua_stepgenerator] does not test what [malloc] returns: when the
    storage for a candidate cannot be had, [strncpy] writes through the
    null pointer. *)
Theorem candidate_allocation_failure (w : World) (g it : nat) (a text : string)
    (rg ra : list value) (h1 h2 : hstate) (fuel : nat) :
  stack w !! 1%nat = Some (VFun (HostFun g)) ->
  host_call g [VStr (c_str text)] (host w) = (HRet rg, h1) ->
  hd VNil rg = VFun (HostFun it) ->
  host_call it [] h1 = (HRet ra, h2) -> hd VNil ra = VStr a ->
  malloc_ok w (nalloc w) = false ->
  (2 <= fuel)%nat ->
  (lua_readline_begin ;; run_generation fuel text) w = Undefined NullWrite.
Proof.
  intros Hv Hg Hrg Ha Hra Hmal Hf.
  destruct fuel as [|[|k]]; try lia.
  destruct (first_candidate w g it text rg h1 k Hv Hg Hrg)
    as (w1 & -> & Hit & Hh & Hn & Hm & _).
  pose proof (lua_callv_keeps_frame (S (S k))) as Hk.
  unfold gen_tail. apply bind_Undefined.
  rewrite (lua_stepgenerator_eq _ w1 Hk). rewrite Hit. simpl default.
  erewrite bind_Ok by (apply callv_host_ret; rewrite Hh; exact Ha).
  rewrite Hra.
  erewrite bind_Ok by reflexivity.
  erewrite bind_Ok by (eapply lua_tolstring_top_str; reflexivity).
  unfold malloc at 1. unfold bind at 1. simpl. rewrite Hm, Hn, Hmal.
  unfold strncpy. rewrite Nat.add_1_r. reflexivity.
Qed.


(** ** Successive generations over a table *)

Lemma keeps_source_refl r (w : World) : keeps_source r w w.
Proof. repeat split. Qed.













(** ** Table entries that are not strings *)

Lemma callv_iterstep_other m t tb r v (w : World) :
  closures w !! r = Some (iter_closure t (VNum 0) (VStr EmptyString)) ->
  tables w !! t = Some tb ->
  tb !! 1 = Some v ->
  ttype v <> LUA_TNIL -> ttype v <> LUA_TSTRING -> ttype v <> LUA_TNUMBER ->
  lua_callv (S (S m)) (VFun (CClosure r)) [] w
  = Ok [v] (iter_world t r EmptyString (VNum 1) w).
Proof.
  intros Hc Ht Hv Hnil Hstr Hnum.
  assert (Haux : forall w0 : World, tables w0 !! t = Some tb ->
            lua_callv (S m) (VFun (CFun CF_ipairsaux)) [VTable t; VNum 0] w0
            = Ok [VNum 1; v] w0).
  { intros w0 Ht0. rewrite (callv_ipairsaux m t tb 0 w0 Ht0).
    unfold rawgeti. change (0 + 1) with 1. rewrite Hv. simpl default.
    destruct v; try reflexivity. exfalso. apply Hnil. reflexivity. }
  erewrite callv_closure_run; [| exact Hc |].
  2:{ unfold cfunction_body, lua_iterstep.
      step.
      erewrite bind_Ok
        by (eapply (lua_tolstring_up_str 3); [reflexivity | exact Hc | reflexivity]).
      simpl len_of.
      rewrite lua_iterstep_loop_S.
      erewrite bind_Ok
        by (eapply (lua_pushvalue_up 0); [reflexivity | exact Hc | reflexivity]).
      erewrite bind_Ok
        by (eapply (lua_pushvalue_up 1); [reflexivity | exact Hc | reflexivity]).
      erewrite bind_Ok
        by (eapply (lua_pushvalue_up 2); [reflexivity | exact Hc | reflexivity]).
      simpl.
      erewrite bind_lua_call with (S := []); [|reflexivity|reflexivity].
      erewrite bind_Ok by (apply Haux; exact Ht).
      simpl. rewrite !set_stack_twice.
      step.
      erewrite bind_Ok
        by (eapply (lua_replace_up 2 [v]); [reflexivity | reflexivity | exact Hc]).
      erewrite bind_Ok by (eapply (lua_isnil_top []); reflexivity).
      assert (Hn : (ttype v =? LUA_TNIL) = false) by (apply Z.eqb_neq; exact Hnil).
      rewrite Hn.
      erewrite bind_Ok
        by (eapply (lua_tolstring_top_other []); [reflexivity|exact Hstr|exact Hnum]).
      simpl. reflexivity. }
  unfold iter_world, iter_closure. simpl. f_equal; destruct w; reflexivity.
Qed.

(** A table entry that is neither a string nor a number is handed on when
    the prefix is empty (its length counts as 0, and so does the length of
    the prefix), and [lua_stepgenerator] then copies from the null pointer
    [lua_tolstring] gave it. *)
Theorem table_entry_of_other_type_is_undefined (w : World) (t : nat)
    (tb : gmap Z value) (v : value) (text : string) (fuel : nat) :
  stack w !! 1%nat = Some (VTable t) ->
  tables w !! t = Some tb ->
  tb !! 1 = Some v ->
  ttype v <> LUA_TNIL -> ttype v <> LUA_TSTRING -> ttype v <> LUA_TNUMBER ->
  c_str text = EmptyString ->
  globals w !! "ipairs"%string = Some (VFun (CFun CF_ipairs)) ->
  (2 <= fuel)%nat ->
  exists u, (lua_readline_begin ;; run_generation fuel text) w = Undefined u.
Proof.
  intros Hv Ht Htv Hnil Hstr Hnum Htext Hg Hf.
  destruct fuel as [|[|m]]; try lia.
  set (w1 := after_begin w).
  assert (Hcl : closures w1 !! next_closure w
                = Some (mkClosure CF_ipairsiterator [VTable t])).
  { unfold w1, after_begin, source_world. rewrite Hv. simpl. apply lookup_insert_eq. }
  assert (Hreg : registry w1 !! REGISTRY_KEY_GENERATOR
                 = Some (VFun (CClosure (next_closure w)))).
  { unfold w1. rewrite after_begin_registry. unfold generator_of. rewrite Hv.
    apply lookup_insert_eq. }
  assert (Htb1 : tables w1 !! t = Some tb)
    by (unfold w1; rewrite after_begin_tables; exact Ht).
  assert (Hg1 : globals w1 !! "ipairs"%string = Some (VFun (CFun CF_ipairs)))
    by (unfold w1; rewrite after_begin_globals; exact Hg).
  assert (Hgl1 : globalL w1 = true) by reflexivity.
  assert (He1 : rl_completion_entry_function w1 = Some gen_function_p) by reflexivity.
  assert (Hb : lua_readline_begin w = Ok (prompt_of w, sigint w) w1)
    by apply lua_readline_begin_run.
  clearbody w1. generalize dependent w1. intros w1 Hcl Hreg Htb1 Hg1 Hgl1 He1 Hb.
  pose proof (lua_callv_keeps_frame (S (S m))) as Hk.
  set (w2 := set_registry
               (<[REGISTRY_KEY_ITERATOR := VFun (CClosure (next_closure w1))]> (registry w1))
               (set_closures
                  (<[next_closure w1 := iter_closure t (VNum 0) (VStr EmptyString)]>
                     (closures w1))
                  (S (next_closure w1)) w1)).
  set (w3 := iter_world t (next_closure w1) EmptyString (VNum 1) w2).
  exists (if malloc_ok w1 (nalloc w1) then NullRead else NullWrite).
  erewrite bind_Ok by exact Hb.
  unfold run_generation. rewrite rl_generation_first by assumption.
  unfold bind at 1. rewrite lua_initgenerator_eq by exact Hk.
  rewrite Hreg. simpl default.
  erewrite bind_Ok by (apply callv_ipairsiterator; [exact Hcl | exact Hg1]).
  unfold modify. simpl rawset. rewrite Htext. fold w2.
  unfold gen_tail. apply bind_Undefined.
  rewrite (lua_stepgenerator_eq _ w2 Hk).
  assert (Hit : registry w2 !! REGISTRY_KEY_ITERATOR
                = Some (VFun (CClosure (next_closure w1))))
    by (unfold w2; simpl; apply lookup_insert_eq).
  rewrite Hit. simpl default.
  erewrite bind_Ok.
  2:{ apply (callv_iterstep_other m t tb (next_closure w1) v w2); try assumption.
      unfold w2. simpl. apply lookup_insert_eq. }
  fold w3. simpl hd.
  assert (Hrun : (push v ;;
                  str <- lua_tolstring (-1) ;;
                  newstr <- malloc (len_of str + 1) ;;
                  strncpy newstr str (len_of str + 1) ;;
                  ret newstr) w3
                 = Undefined (if malloc_ok w1 (nalloc w1) then NullRead else NullWrite)).
  { erewrite bind_Ok by reflexivity.
    erewrite bind_Ok
      by (eapply lua_tolstring_top_other; [reflexivity|assumption|assumption]).
    unfold malloc at 1. unfold bind at 1. simpl.
    destruct (malloc_ok w1 (nalloc w1)); reflexivity. }
  destruct v; try exact Hrun. exfalso. apply Hnil. reflexivity.
Qed.

(** A read without a completion source (no second argument, or one that
    is neither a function nor a table) that ends with a line returns that
    line, whatever completions were asked for; no host function is called
    and the disposition is the one found on entry. *)
Theorem plain_read_returns_line (fuel : nat) (script : rl_script) (w : World)
    (s : string) :
  match stack w !! 1%nat with
  | Some v => ttype v <> LUA_TFUNCTION /\ ttype v <> LUA_TTABLE
  | None => True
  end ->
  rl_ending script = RlLine s ->
  (2 <= fuel)%nat ->
  exists w3,
    lua_readline fuel script w = Ok 1%nat w3
    /\ results 1 w3 = [VStr (c_str s)]
    /\ sigint w3 = sigint w
    /\ count_event is_host_call (events_since w w3) = 0%nat.
Proof.
  intros Hsrc He Hf.
  assert (Hreg : registry (after_begin w) !! REGISTRY_KEY_GENERATOR
                 = Some (VFun (CFun CF_niliterator))).
  { rewrite after_begin_registry, (generator_of_absent w Hsrc).
    apply lookup_insert_eq. }
  destruct (completions_absent fuel (rl_completions script) (after_begin w)
              Hreg eq_refl eq_refl Hf) as (w2 & Hrun & Htr & _).
  assert (Hr : (lua_readline_begin ;; run_completions fuel (rl_completions script)) w
               = Ok (map (fun _ => []) (rl_completions script)) w2).
  { erewrite bind_Ok by apply lua_readline_begin_run. exact Hrun. }
  exists (line_world s (sigint w) w2).
  split; [apply (lua_readline_line _ _ _ _ _ s He Hr)|].
  split; [eapply results_top; reflexivity|].
  split; [reflexivity|].
  rewrite (events_since_app w _
             [EvSignal SIGINT (SIG_FN readline_sigint_h); EvSignal SIGINT (sigint w)]);
    [reflexivity|].
  simpl. rewrite Htr, after_begin_trace, <- app_assoc. reflexivity.
Qed.

(** ** Tables with entries of any type *)







End Correctness.

(** ** The library table *)

Lemma setfield_on_table (base : list Registration.lvalue) t f n :
  Registration.lua_setfield (-2) n
    (Registration.lua_pushcfunction f (base ++ [Registration.LTable t]))
  = inl (base ++ [Registration.LTable (<[c_str n := f]> t)]).
Proof.
  unfold Registration.lua_setfield, Registration.lua_pushcfunction, unsnoc.
  rewrite rev_app_distr. simpl. rewrite rev_involutive.
  rewrite !length_app. simpl length.
  rewrite index2adr_top2.
  rewrite lookup_app_r by lia.
  replace (length base - length base)%nat with 0%nat by lia. simpl.
  rewrite insert_app_r_alt by lia.
  replace (length base - length base)%nat with 0%nat by lia. reflexivity.
Qed.

(** [lua_reg] registers the entries before the first one whose name or
    function is null and nothing after it, and leaves the stack as it
    found it: a key that names none of these entries keeps its value, and
    when their names differ each of them is bound to its function. *)
Theorem lua_reg_stops_at_sentinel (pre post : list Registration.reg_t)
    (s : Registration.reg_t) (base : list Registration.lvalue)
    (t : gmap string Registration.cfunc) :
  forallb Registration.complete pre = true ->
  Registration.complete s = false ->
  exists t',
    Registration.lua_reg (pre ++ s :: post) (base ++ [Registration.LTable t])
    = inl (base ++ [Registration.LTable t'])
    /\ (forall k, k ∉ map Registration.key_of pre -> t' !! k = t !! k)
    /\ (NoDup (map Registration.key_of pre) ->
        forall r, r ∈ pre -> t' !! Registration.key_of r = Registration.func r).
Proof.
  revert t. induction pre as [|r pre IH]; intros t Hpre Hs.
  - exists t. split; [|split].
    + simpl. unfold Registration.complete in Hs.
      destruct (Registration.name s), (Registration.func s);
        try reflexivity; discriminate.
    + reflexivity.
    + intros _ r Hr. inversion Hr.
  - simpl in Hpre. apply andb_true_iff in Hpre as [Hr Hpre].
    unfold Registration.complete in Hr.
    destruct (Registration.name r) as [n|] eqn:Hn; [|discriminate].
    destruct (Registration.func r) as [f|] eqn:Hf; [|discriminate].
    destruct (IH (<[c_str n := f]> t) Hpre Hs) as (t' & Hrun & Hout & Hin).
    assert (Hk : Registration.key_of r = c_str n)
      by (unfold Registration.key_of; rewrite Hn; reflexivity).
    exists t'. split; [|split].
    + simpl. rewrite Hn, Hf, setfield_on_table. exact Hrun.
    + intros k Hnot. simpl in Hnot. rewrite Hout.
      * apply lookup_insert_ne. intros Heq. apply Hnot. rewrite Hk, Heq. left.
      * intros Hel. apply Hnot. right. exact Hel.
    + intros Hnd r' Hr'. simpl in Hnd. apply NoDup_cons in Hnd as [Hfresh Hnd].
      apply elem_of_cons in Hr' as [->|Hr'].
      * rewrite Hout by exact Hfresh. rewrite Hk, Hf. apply lookup_insert_eq.
      * apply Hin; assumption.
Qed.

(** An array without an entry that ends it is read past its end. *)
Theorem lua_reg_without_sentinel (reg : list Registration.reg_t)
    (base : list Registration.lvalue) (t : gmap string Registration.cfunc) :
  forallb Registration.complete reg = true ->
  Registration.lua_reg reg (base ++ [Registration.LTable t])
  = inr Registration.ReadPastArray.
Proof.
  revert t. induction reg as [|r reg IH]; intros t Hreg; [reflexivity|].
  simpl in Hreg. apply andb_true_iff in Hreg as [Hr Hreg].
  unfold Registration.complete in Hr. simpl.
  destruct (Registration.name r) as [n|]; [|discriminate].
  destruct (Registration.func r) as [f|]; [|discriminate].
  rewrite setfield_on_table. apply IH, Hreg.
Qed.

(** [luaopen_readline] returns one value on whatever stack it is called:
    a new table with the four fields readline, addhistory, getname and
    setname, each bound to its wrapper, and no other field. *)
Theorem luaopen_readline_table (st : list Registration.lvalue) :
  Registration.luaopen_readline st
  = inl (1%nat,
         st ++ [Registration.LTable
                  (<["setname"%string := Registration.lua_setname_p]>
                     (<["getname"%string := Registration.lua_getname_p]>
                        (<["addhistory"%string := Registration.lua_addhistory_p]>
                           (<["readline"%string := Registration.lua_readline_p]> ∅))))]).
Proof.
  unfold Registration.luaopen_readline, Registration.lua_createtable, Registration.R.
  cbn [Registration.lua_reg Registration.name Registration.func].
  rewrite !setfield_on_table. reflexivity.
Qed.

(** * The theorems at concrete inputs *)


Lemma disposition_restored_on_return_witness :
  exists n w3,
    lua_readline 10 (mkScript ["a"%string] (RlLine "hello"))
      (table_read example_table SIG_IGN)
    = Ok n w3
    /\ sigint w3 = SIG_IGN.
Proof.
  edestruct (disposition_restored_on_return 10
               (mkScript ["a"%string] (RlLine "hello"))
               (table_read example_table SIG_IGN))
    as (n & w3 & Hrun & Hcalls & Hsig).
  - discriminate.
  - vm_compute. reflexivity.
  - exists n, w3. split; [exact Hrun | exact Hsig].
Defined.



Lemma null_sentinel_read_witness :
  exists n w3,
    lua_readline 10 (mkScript ["a"%string] RlNull) (table_read example_table SIG_DFL)
    = Ok n w3
    /\ first_result n w3 = VNil.
Proof.
  edestruct (null_sentinel_read 10 (mkScript ["a"%string] RlNull)
               (table_read example_table SIG_DFL))
    as (n & w3 & Hrun & Hnil & Heof & Hnoeof).
  - reflexivity.
  - vm_compute. reflexivity.
  - exists n, w3. split; [exact Hrun | exact Hnil].
Defined.

Lemma absent_source_generation_witness :
  exists w',
    (lua_readline_begin ;; run_generation 10 "a")
      (example_world [VStr ">"] ∅ SIG_DFL (fun _ => true))
    = Ok [] w'.
Proof.
  edestruct (absent_source_generation
               (example_world [VStr ">"] ∅ SIG_DFL (fun _ => true)) "a" 10)
    as (w' & Hrun & Hev & Hcalls).
  - left. reflexivity.
  - lia.
  - exists w'. exact Hrun.
Defined.


Lemma name_set_then_get_witness :
  exists w1,
    in_frame None [VStr "repl"] lua_setname
      (example_world [] ∅ SIG_DFL (fun _ => true))
    = Ok [] w1
    /\ in_frame None [] lua_getname w1 = Ok [VStr "repl"] w1.
Proof.
  edestruct (name_set_then_get (example_world [] ∅ SIG_DFL (fun _ => true))
               "repl" "calc")
    as (w1 & w2 & Hset & Hget & Hname & Hheap & Hset2 & Hfree & Hget2 & Hs1 & Hs2).
  - left. reflexivity.
  - reflexivity.
  - reflexivity.
  - exists w1. split; [exact Hset | exact Hget].
Defined.

Lemma setname_allocation_failure_witness :
  in_frame None [VStr "repl"] lua_setname
    (example_world [] ∅ SIG_DFL (fun _ => false))
  = Undefined NullWrite.
Proof.
  apply (setname_allocation_failure (example_world [] ∅ SIG_DFL (fun _ => false))
           "repl").
  - left. reflexivity.
  - reflexivity.
Defined.

Lemma other_source_is_absent_witness :
  exists w1 w',
    lua_readline_begin (example_world [VStr ">"; VStr "x"] ∅ SIG_DFL (fun _ => true))
    = Ok (Some ">"%string, SIG_DFL) w1
    /\ run_completions 10 ["a"%string; "b"%string] w1 = Ok [[]; []] w'.
Proof.
  edestruct (other_source_is_absent
               (example_world [VStr ">"; VStr "x"] ∅ SIG_DFL (fun _ => true))
               (VStr "x") ["a"%string; "b"%string] 10)
    as (w1 & w' & Hb & Hreg & Hrun & Hreg' & Hcalls).
  - reflexivity.
  - discriminate.
  - discriminate.
  - lia.
  - exists w1, w'. split; [exact Hb | exact Hrun].
Defined.

(** * Where the specification and the code part *)

(** C2.  A completion callable that raises an error takes the read out of
    [lua_readline] with the handler of the binding still installed. *)
Lemma callback_error_keeps_handler :
  exists e w',
    lua_readline 10 (mkScript ["a"%string] (RlLine "x")) (callable_read 2)
    = LuaError e w'
    /\ sigint (callable_read 2) = SIG_DFL
    /\ sigint w' = SIG_FN readline_sigint_h.
Proof.
  eexists _, _. split; [vm_compute; reflexivity|]. split; reflexivity.
Qed.




(** C8.  A name with a NUL byte inside comes back cut at that byte. *)
Lemma name_with_nul_counterexample :
  exists w',
    (in_frame None [VStr nul_entry] lua_setname ;; in_frame None [] lua_getname)
      (example_world [] ∅ SIG_DFL (fun _ => true))
    = Ok [VStr "a"] w'
    /\ VStr "a" <> VStr nul_entry.
Proof.
  eexists. split; [vm_compute; reflexivity | discriminate].
Qed.

(** * The further properties at concrete inputs *)

Lemma read_returns_line_witness :
  exists w3,
    lua_readline 10 (mkScript ["a"%string] (RlLine "hello"))
      (table_read example_table SIG_DFL)
    = Ok 1%nat w3
    /\ results 1 w3 = [VStr "hello"].
Proof.
  edestruct (read_returns_line 10 (mkScript ["a"%string] (RlLine "hello"))
               (table_read example_table SIG_DFL))
    as (w3 & Hrun & Hres & Hsig & Hfree).
  - reflexivity.
  - vm_compute. reflexivity.
  - exists w3. split; [exact Hrun | exact Hres].
Defined.

Lemma interrupt_under_own_handler_never_returns_witness :
  lua_readline 10 (mkScript ["a"%string] RlSigint)
    (table_read example_table (SIG_FN readline_sigint_h))
  = OutOfFuel.
Proof.
  eapply (interrupt_under_own_handler_never_returns 10
            (mkScript ["a"%string] RlSigint)
            (table_read example_table (SIG_FN readline_sigint_h))).
  - reflexivity.
  - reflexivity.
  - vm_compute. reflexivity.
Defined.

Lemma source_error_propagates_witness :
  exists w',
    lua_readline 10 (mkScript ["a"%string] (RlLine "x")) (callable_read 5)
    = LuaError (VStr "boom") w'
    /\ sigint w' = SIG_FN readline_sigint_h.
Proof.
  edestruct (source_error_propagates 10 (mkScript ["a"%string] (RlLine "x"))
               (callable_read 5) 5 "a" [] (VStr "boom") 0%nat)
    as (w' & Hrun & Hsig & Hrest).
  - reflexivity.
  - reflexivity.
  - reflexivity.
  - lia.
  - exists w'. split; [exact Hrun | exact Hsig].
Defined.

Lemma setname_without_string_witness :
  in_frame None [VNil] lua_setname (example_world [] ∅ SIG_DFL (fun _ => true))
  = Undefined NullRead.
Proof.
  apply (setname_without_string (example_world [] ∅ SIG_DFL (fun _ => true)) [VNil]).
  - left. reflexivity.
  - simpl. exact I.
Defined.

Lemma setname_frees_foreign_storage_witness :
  in_frame None [VStr "repl"] lua_setname literal_name_world = Undefined BadFree.
Proof.
  apply (setname_frees_foreign_storage literal_name_world "repl" "other").
  reflexivity.
Defined.

Lemma candidate_of_other_type_is_undefined_witness :
  exists u, (lua_readline_begin ;; run_generation 10 "a") (mixed_read 2) = Undefined u.
Proof.
  apply (candidate_of_other_type_is_undefined (mixed_read 2) 2 3 "a"
           [VFun (HostFun 3)] [VBool true] 0%nat 1%nat 10).
  - reflexivity.
  - reflexivity.
  - reflexivity.
  - reflexivity.
  - discriminate.
  - discriminate.
  - discriminate.
  - lia.
Defined.

Lemma candidate_allocation_failure_witness :
  (lua_readline_begin ;; run_generation 10 "a")
    (example_world [VStr ">"; VFun (HostFun 0)] ∅ SIG_DFL (fun _ => false))
  = Undefined NullWrite.
Proof.
  apply (candidate_allocation_failure
           (example_world [VStr ">"; VFun (HostFun 0)] ∅ SIG_DFL (fun _ => false))
           0 1 "alpha" "a" [VFun (HostFun 1)] [VStr "alpha"] 0%nat 1%nat 10).
  - reflexivity.
  - reflexivity.
  - reflexivity.
  - reflexivity.
  - reflexivity.
  - reflexivity.
  - lia.
Defined.






Lemma table_entry_of_other_type_is_undefined_witness :
  exists u,
    (lua_readline_begin ;; run_generation 10 EmptyString) (table_read flag_table SIG_DFL)
    = Undefined u.
Proof.
  apply (table_entry_of_other_type_is_undefined (table_read flag_table SIG_DFL) 7
           flag_table (VBool true) EmptyString 10).
  - reflexivity.
  - vm_compute. reflexivity.
  - vm_compute. reflexivity.
  - discriminate.
  - discriminate.
  - discriminate.
  - reflexivity.
  - vm_compute. reflexivity.
  - lia.
Defined.

Lemma lua_reg_stops_at_sentinel_witness :
  exists t',
    Registration.lua_reg
      [Registration.mkReg (Some "getname"%string) (Some Registration.lua_getname_p);
       Registration.mkReg None (Some Registration.lua_setname_p);
       Registration.mkReg (Some "late"%string) (Some Registration.lua_readline_p)]
      [Registration.LTable ∅]
    = inl [Registration.LTable t'].
Proof.
  edestruct (lua_reg_stops_at_sentinel
               [Registration.mkReg (Some "getname"%string)
                  (Some Registration.lua_getname_p)]
               [Registration.mkReg (Some "late"%string)
                  (Some Registration.lua_readline_p)]
               (Registration.mkReg None (Some Registration.lua_setname_p))
               [] ∅)
    as (t' & Hrun & Hout & Hin).
  - reflexivity.
  - reflexivity.
  - exists t'. exact Hrun.
Defined.

Lemma lua_reg_without_sentinel_witness :
  Registration.lua_reg
    [Registration.mkReg (Some "readline"%string) (Some Registration.lua_readline_p)]
    [Registration.LTable ∅]
  = inr Registration.ReadPastArray.
Proof.
  apply (lua_reg_without_sentinel
           [Registration.mkReg (Some "readline"%string)
              (Some Registration.lua_readline_p)] [] ∅).
  reflexivity.
Defined.

Lemma plain_read_returns_line_witness :
  exists w3,
    lua_readline 10 (mkScript ["a"%string] (RlLine "hello"))
      (example_world [VStr ">"] ∅ SIG_DFL (fun _ => true))
    = Ok 1%nat w3
    /\ results 1 w3 = [VStr "hello"].
Proof.
  edestruct (plain_read_returns_line 10 (mkScript ["a"%string] (RlLine "hello"))
               (example_world [VStr ">"] ∅ SIG_DFL (fun _ => true)) "hello")
    as (w3 & Hrun & Hres & Hrest).
  - simpl. exact I.
  - reflexivity.
  - lia.
  - exists w3. split; [exact Hrun | exact Hres].
Defined.

